(** * Image editor core (App.tsx): history, session state, coordinate mapping,
      crop extraction, mask compositing and the manual adjustment pipeline.

    The development is a shallow embedding of [src/App.tsx] and of the
    [ManualAdjustments] record of [components/ManualAdjustmentPanel.tsx].

    - JavaScript numbers used for geometry are IEEE binary64 values
      ([PrimFloat.float]); array indices are integers ([Z]).
    - React state is one record, [AppState], with one field per [useState]
      cell; a handler is a function on that record.  A [useCallback] closure
      reads the cells of the render that created it, so handlers that finish
      asynchronously take two states: the captured one and the one they write.
    - The canvas is an 8-bit RGBA bitmap; the compositing operators follow the
      W3C Compositing and Blending recommendation and the CSS filter
      functions follow Filter Effects. *)

From Stdlib Require Import ZArith QArith Qround Qminmax Floats String Ascii Lia Lqa Bool.
From Stdlib Require Uint63.
From stdpp Require Import base list.

Local Open Scope Z_scope.

(* ===================================================================== *)
(** ** JavaScript values used by the component *)
(* ===================================================================== *)

Module JS.

(** A thrown value: an [Error] instance carrying a message, or anything
    else (for which [err instanceof Error] is false). *)
Inductive thrown : Type :=
| ErrorObj (message : string)
| NonError.

(** [Array.prototype.slice(start, end)] on a list: negative positions count
    from the end, and both are clamped to the length. *)
Definition rel_index (len k : Z) : Z :=
  if k <? 0 then Z.max (len + k) 0 else Z.min k len.

Definition slice {A} (l : list A) (start stop : Z) : list A :=
  let len := Z.of_nat (length l) in
  let from := rel_index len start in
  let to := rel_index len stop in
  take (Z.to_nat (to - from)) (drop (Z.to_nat from) l).

(** [arr[i]]: [undefined] (here [None]) outside the array. *)
Definition index {A} (l : list A) (i : Z) : option A :=
  if i <? 0 then None else l !! Z.to_nat i.

(** Code units that [String.prototype.trim] removes, among the 8-bit ones. *)
Definition is_white_space (c : ascii) : bool :=
  let n := nat_of_ascii c in
  ((9 <=? n)%nat && (n <=? 13)%nat) || (n =? 32)%nat || (n =? 160)%nat.

Fixpoint all_white_space (s : string) : bool :=
  match s with
  | EmptyString => true
  | String c rest => is_white_space c && all_white_space rest
  end.

(** [!s.trim()]: the trimmed string is empty exactly when every code unit
    is white space. *)
Definition trim_is_empty (s : string) : bool := all_white_space s.

(** Decimal rendering of an integer inside a template literal. *)
Fixpoint digits (fuel : nat) (n : Z) (acc : string) : string :=
  match fuel with
  | O => acc
  | S fuel' =>
      let d := ascii_of_nat (48 + Z.to_nat (n mod 10)) in
      if n <? 10 then String d acc else digits fuel' (n / 10) (String d acc)
  end.

Definition to_string (n : Z) : string :=
  if n <? 0 then String "-" (digits (Z.to_nat (Z.log2 (- n)) + 1) (- n) "")
  else digits (Z.to_nat (Z.log2 n) + 1) n "".

End JS.

(* ===================================================================== *)
(** ** Data model *)
(* ===================================================================== *)

(** [new File([u8arr], filename, {type: mime})]. *)
Record File : Type := mkFile {
  file_bits : list Z;
  file_name : string;
  file_type : string
}.

Inductive Tab : Type :=
| retouch | crop_tab | manual | adjust | filters | restore.

Definition Tab_eqb (a b : Tab) : bool :=
  match a, b with
  | retouch, retouch | crop_tab, crop_tab | manual, manual
  | adjust, adjust | filters, filters | restore, restore => true
  | _, _ => false
  end.

Record Point : Type := mkPoint { pt_x : float; pt_y : float }.

(** [Crop] and [PixelCrop] of react-image-crop. *)
Inductive CropUnit : Type := unit_px | unit_percent.

Record Crop : Type := mkCrop {
  crop_x : float;
  crop_y : float;
  crop_width : float;
  crop_height : float;
  crop_unit : CropUnit
}.

Record PixelCrop : Type := mkPixelCrop {
  pc_x : float;
  pc_y : float;
  pc_width : float;
  pc_height : float
}.

(** [ManualAdjustments] (ManualAdjustmentPanel.tsx). *)
Record ManualAdjustments : Type := mkAdjustments {
  temperature : float;
  tint : float;
  exposure : float;
  contrast : float;
  highlights : float;
  shadows : float;
  whites : float;
  blacks : float;
  clarity : float;
  vibrance : float;
  saturation : float
}.

Definition defaultAdjustments : ManualAdjustments :=
  {| temperature := 0; tint := 0; exposure := 0; contrast := 0;
     highlights := 0; shadows := 0; whites := 0; blacks := 0;
     clarity := 0; vibrance := 0; saturation := 0 |}.

(** One field per [useState] cell of [App]. *)
Record AppState : Type := mkAppState {
  history : list File;
  historyIndex : Z;
  prompt : string;
  isLoading : bool;
  error : option string;
  editHotspot : option Point;
  displayHotspot : option Point;
  activeTab : Tab;
  crop : option Crop;
  completedCrop : option PixelCrop;
  aspect : option float;
  isComparing : bool;
  propImages : list File;
  propImageUrls : list string;
  isDraggingProp : bool;
  brushSize : float;
  brushOpacity : float;
  isPainting : bool;
  showBrushCursor : bool;
  brushPosition : Point;
  adjustments : ManualAdjustments
}.

(** The state of the first render. *)
Definition initialState : AppState :=
  {| history := []; historyIndex := -1; prompt := ""; isLoading := false;
     error := None; editHotspot := None; displayHotspot := None;
     activeTab := retouch; crop := None; completedCrop := None;
     aspect := None; isComparing := false; propImages := [];
     propImageUrls := []; isDraggingProp := false;
     brushSize := 40; brushOpacity := 100; isPainting := false;
     showBrushCursor := false; brushPosition := mkPoint 0 0;
     adjustments := defaultAdjustments |}.

(** The [useState] setters. *)
Definition setHistory (v : list File) (s : AppState) : AppState :=
  let 'mkAppState _ a2 a3 a4 a5 a6 a7 a8 a9 a10 a11 a12 a13 a14 a15 a16 a17 a18 a19 a20 a21 := s in
  mkAppState v a2 a3 a4 a5 a6 a7 a8 a9 a10 a11 a12 a13 a14 a15 a16 a17 a18 a19 a20 a21.

Definition setHistoryIndex (v : Z) (s : AppState) : AppState :=
  let 'mkAppState a1 _ a3 a4 a5 a6 a7 a8 a9 a10 a11 a12 a13 a14 a15 a16 a17 a18 a19 a20 a21 := s in
  mkAppState a1 v a3 a4 a5 a6 a7 a8 a9 a10 a11 a12 a13 a14 a15 a16 a17 a18 a19 a20 a21.

Definition setPrompt (v : string) (s : AppState) : AppState :=
  let 'mkAppState a1 a2 _ a4 a5 a6 a7 a8 a9 a10 a11 a12 a13 a14 a15 a16 a17 a18 a19 a20 a21 := s in
  mkAppState a1 a2 v a4 a5 a6 a7 a8 a9 a10 a11 a12 a13 a14 a15 a16 a17 a18 a19 a20 a21.

Definition setIsLoading (v : bool) (s : AppState) : AppState :=
  let 'mkAppState a1 a2 a3 _ a5 a6 a7 a8 a9 a10 a11 a12 a13 a14 a15 a16 a17 a18 a19 a20 a21 := s in
  mkAppState a1 a2 a3 v a5 a6 a7 a8 a9 a10 a11 a12 a13 a14 a15 a16 a17 a18 a19 a20 a21.

Definition setError (v : option string) (s : AppState) : AppState :=
  let 'mkAppState a1 a2 a3 a4 _ a6 a7 a8 a9 a10 a11 a12 a13 a14 a15 a16 a17 a18 a19 a20 a21 := s in
  mkAppState a1 a2 a3 a4 v a6 a7 a8 a9 a10 a11 a12 a13 a14 a15 a16 a17 a18 a19 a20 a21.

Definition setEditHotspot (v : option Point) (s : AppState) : AppState :=
  let 'mkAppState a1 a2 a3 a4 a5 _ a7 a8 a9 a10 a11 a12 a13 a14 a15 a16 a17 a18 a19 a20 a21 := s in
  mkAppState a1 a2 a3 a4 a5 v a7 a8 a9 a10 a11 a12 a13 a14 a15 a16 a17 a18 a19 a20 a21.

Definition setDisplayHotspot (v : option Point) (s : AppState) : AppState :=
  let 'mkAppState a1 a2 a3 a4 a5 a6 _ a8 a9 a10 a11 a12 a13 a14 a15 a16 a17 a18 a19 a20 a21 := s in
  mkAppState a1 a2 a3 a4 a5 a6 v a8 a9 a10 a11 a12 a13 a14 a15 a16 a17 a18 a19 a20 a21.

Definition setActiveTab (v : Tab) (s : AppState) : AppState :=
  let 'mkAppState a1 a2 a3 a4 a5 a6 a7 _ a9 a10 a11 a12 a13 a14 a15 a16 a17 a18 a19 a20 a21 := s in
  mkAppState a1 a2 a3 a4 a5 a6 a7 v a9 a10 a11 a12 a13 a14 a15 a16 a17 a18 a19 a20 a21.

Definition setCrop (v : option Crop) (s : AppState) : AppState :=
  let 'mkAppState a1 a2 a3 a4 a5 a6 a7 a8 _ a10 a11 a12 a13 a14 a15 a16 a17 a18 a19 a20 a21 := s in
  mkAppState a1 a2 a3 a4 a5 a6 a7 a8 v a10 a11 a12 a13 a14 a15 a16 a17 a18 a19 a20 a21.

Definition setCompletedCrop (v : option PixelCrop) (s : AppState) : AppState :=
  let 'mkAppState a1 a2 a3 a4 a5 a6 a7 a8 a9 _ a11 a12 a13 a14 a15 a16 a17 a18 a19 a20 a21 := s in
  mkAppState a1 a2 a3 a4 a5 a6 a7 a8 a9 v a11 a12 a13 a14 a15 a16 a17 a18 a19 a20 a21.

Definition setAspect (v : option float) (s : AppState) : AppState :=
  let 'mkAppState a1 a2 a3 a4 a5 a6 a7 a8 a9 a10 _ a12 a13 a14 a15 a16 a17 a18 a19 a20 a21 := s in
  mkAppState a1 a2 a3 a4 a5 a6 a7 a8 a9 a10 v a12 a13 a14 a15 a16 a17 a18 a19 a20 a21.

Definition setIsComparing (v : bool) (s : AppState) : AppState :=
  let 'mkAppState a1 a2 a3 a4 a5 a6 a7 a8 a9 a10 a11 _ a13 a14 a15 a16 a17 a18 a19 a20 a21 := s in
  mkAppState a1 a2 a3 a4 a5 a6 a7 a8 a9 a10 a11 v a13 a14 a15 a16 a17 a18 a19 a20 a21.

Definition setPropImages (v : list File) (s : AppState) : AppState :=
  let 'mkAppState a1 a2 a3 a4 a5 a6 a7 a8 a9 a10 a11 a12 _ a14 a15 a16 a17 a18 a19 a20 a21 := s in
  mkAppState a1 a2 a3 a4 a5 a6 a7 a8 a9 a10 a11 a12 v a14 a15 a16 a17 a18 a19 a20 a21.

Definition setPropImageUrls (v : list string) (s : AppState) : AppState :=
  let 'mkAppState a1 a2 a3 a4 a5 a6 a7 a8 a9 a10 a11 a12 a13 _ a15 a16 a17 a18 a19 a20 a21 := s in
  mkAppState a1 a2 a3 a4 a5 a6 a7 a8 a9 a10 a11 a12 a13 v a15 a16 a17 a18 a19 a20 a21.

Definition setIsDraggingProp (v : bool) (s : AppState) : AppState :=
  let 'mkAppState a1 a2 a3 a4 a5 a6 a7 a8 a9 a10 a11 a12 a13 a14 _ a16 a17 a18 a19 a20 a21 := s in
  mkAppState a1 a2 a3 a4 a5 a6 a7 a8 a9 a10 a11 a12 a13 a14 v a16 a17 a18 a19 a20 a21.

Definition setBrushSize (v : float) (s : AppState) : AppState :=
  let 'mkAppState a1 a2 a3 a4 a5 a6 a7 a8 a9 a10 a11 a12 a13 a14 a15 _ a17 a18 a19 a20 a21 := s in
  mkAppState a1 a2 a3 a4 a5 a6 a7 a8 a9 a10 a11 a12 a13 a14 a15 v a17 a18 a19 a20 a21.

Definition setBrushOpacity (v : float) (s : AppState) : AppState :=
  let 'mkAppState a1 a2 a3 a4 a5 a6 a7 a8 a9 a10 a11 a12 a13 a14 a15 a16 _ a18 a19 a20 a21 := s in
  mkAppState a1 a2 a3 a4 a5 a6 a7 a8 a9 a10 a11 a12 a13 a14 a15 a16 v a18 a19 a20 a21.

Definition setIsPainting (v : bool) (s : AppState) : AppState :=
  let 'mkAppState a1 a2 a3 a4 a5 a6 a7 a8 a9 a10 a11 a12 a13 a14 a15 a16 a17 _ a19 a20 a21 := s in
  mkAppState a1 a2 a3 a4 a5 a6 a7 a8 a9 a10 a11 a12 a13 a14 a15 a16 a17 v a19 a20 a21.

Definition setShowBrushCursor (v : bool) (s : AppState) : AppState :=
  let 'mkAppState a1 a2 a3 a4 a5 a6 a7 a8 a9 a10 a11 a12 a13 a14 a15 a16 a17 a18 _ a20 a21 := s in
  mkAppState a1 a2 a3 a4 a5 a6 a7 a8 a9 a10 a11 a12 a13 a14 a15 a16 a17 a18 v a20 a21.

Definition setBrushPosition (v : Point) (s : AppState) : AppState :=
  let 'mkAppState a1 a2 a3 a4 a5 a6 a7 a8 a9 a10 a11 a12 a13 a14 a15 a16 a17 a18 a19 _ a21 := s in
  mkAppState a1 a2 a3 a4 a5 a6 a7 a8 a9 a10 a11 a12 a13 a14 a15 a16 a17 a18 a19 v a21.

Definition setAdjustments (v : ManualAdjustments) (s : AppState) : AppState :=
  let 'mkAppState a1 a2 a3 a4 a5 a6 a7 a8 a9 a10 a11 a12 a13 a14 a15 a16 a17 a18 a19 a20 _ := s in
  mkAppState a1 a2 a3 a4 a5 a6 a7 a8 a9 a10 a11 a12 a13 a14 a15 a16 a17 a18 a19 a20 v.

(* ===================================================================== *)
(** ** [atob] and [dataURLtoFile] *)
(* ===================================================================== *)

Module Base64.

(** The forgiving-base64 decoder behind [window.atob]. *)
Definition is_ascii_whitespace (c : ascii) : bool :=
  let n := nat_of_ascii c in
  (n =? 9)%nat || (n =? 10)%nat || (n =? 12)%nat || (n =? 13)%nat || (n =? 32)%nat.

Fixpoint strip_whitespace (s : string) : list ascii :=
  match s with
  | EmptyString => []
  | String c rest =>
      if is_ascii_whitespace c then strip_whitespace rest
      else c :: strip_whitespace rest
  end.

Definition is_pad (c : ascii) : bool := (nat_of_ascii c =? 61)%nat.

(** Drop one or two trailing [=] when the length is a multiple of four. *)
Definition strip_padding (l : list ascii) : list ascii :=
  if (length l mod 4 =? 0)%nat then
    match reverse l with
    | p1 :: p2 :: rest =>
        if is_pad p1 then
          if is_pad p2 then reverse rest else reverse (p2 :: rest)
        else l
    | _ => l
    end
  else l.

Definition sextet (c : ascii) : option Z :=
  let n := Z.of_nat (nat_of_ascii c) in
  if (65 <=? n) && (n <=? 90) then Some (n - 65)
  else if (97 <=? n) && (n <=? 122) then Some (n - 71)
  else if (48 <=? n) && (n <=? 57) then Some (n + 4)
  else if n =? 43 then Some 62
  else if n =? 47 then Some 63
  else None.

Fixpoint sextets (l : list ascii) : option (list Z) :=
  match l with
  | [] => Some []
  | c :: rest =>
      match sextet c, sextets rest with
      | Some v, Some vs => Some (v :: vs)
      | _, _ => None
      end
  end.

Fixpoint decode_groups (l : list Z) : list Z :=
  match l with
  | a :: b :: c :: d :: rest =>
      let n := a * 262144 + b * 4096 + c * 64 + d in
      (n / 65536) :: ((n / 256) mod 256) :: (n mod 256) :: decode_groups rest
  | [a; b; c] =>
      let n := (a * 4096 + b * 64 + c) / 4 in
      [n / 256; n mod 256]
  | [a; b] => [(a * 64 + b) / 16]
  | _ => []
  end.

Definition binary_string (bytes : list Z) : string :=
  string_of_list_ascii (map (fun b => ascii_of_nat (Z.to_nat b)) bytes).

Definition invalid_character_message : string :=
  "The string to be decoded is not correctly encoded.".

(** [atob(data)]: the decoded binary string, or the thrown
    [InvalidCharacterError] (a [DOMException], which is an [Error]). *)
Definition atob (data : string) : JS.thrown + string :=
  let l := strip_padding (strip_whitespace data) in
  if (length l mod 4 =? 1)%nat then inl (JS.ErrorObj invalid_character_message)
  else
    match sextets l with
    | None => inl (JS.ErrorObj invalid_character_message)
    | Some vs => inr (binary_string (decode_groups vs))
    end.

End Base64.

(** [dataurl.split(',')]: never empty. *)
Fixpoint split_comma (s : string) : list string :=
  match s with
  | EmptyString => [EmptyString]
  | String c rest =>
      if (nat_of_ascii c =? 44)%nat then EmptyString :: split_comma rest
      else
        match split_comma rest with
        | h :: t => String c h :: t
        | [] => [String c EmptyString]
        end
  end.

(** [.] of a regular expression does not match a line terminator. *)
Definition is_line_terminator (c : ascii) : bool :=
  (nat_of_ascii c =? 10)%nat || (nat_of_ascii c =? 13)%nat.

(** The part [(.*?);] of the pattern, tried at one position: the shortest
    run of non-terminators that is followed by [;]. *)
Fixpoint lazy_until_semicolon (s : string) : option string :=
  match s with
  | EmptyString => None
  | String c rest =>
      if (nat_of_ascii c =? 59)%nat then Some EmptyString
      else if is_line_terminator c then None
      else
        match lazy_until_semicolon rest with
        | Some g => Some (String c g)
        | None => None
        end
  end.

(** [s.match(/:(.*?);/)], projected on its capture group: the leftmost
    position where the pattern matches wins. *)
Fixpoint match_mime (s : string) : option string :=
  match s with
  | EmptyString => None
  | String c rest =>
      if (nat_of_ascii c =? 58)%nat then
        match lazy_until_semicolon rest with
        | Some g => Some g
        | None => match_mime rest
        end
      else match_mime rest
  end.

Definition char_codes (s : string) : list Z :=
  map (fun c => Z.of_nat (nat_of_ascii c)) (list_ascii_of_string s).

(** [dataURLtoFile(dataurl, filename)]; [inl] is the thrown value. *)
Definition dataURLtoFile (dataurl filename : string) : JS.thrown + File :=
  match split_comma dataurl with
  | arr0 :: arr1 :: _ =>
      match match_mime arr0 with
      | None | Some EmptyString =>
          inl (JS.ErrorObj "Could not parse MIME type from data URL")
      | Some mime =>
          match Base64.atob arr1 with
          | inl e => inl e
          | inr bstr => inr (mkFile (char_codes bstr) filename mime)
          end
      end
  | _ => inl (JS.ErrorObj "Invalid data URL")
  end.

(** The template literal [`${prefix}-${Date.now()}.png`]. *)
Definition stamped_name (prefix : string) (now : Z) : string :=
  (prefix ++ "-" ++ JS.to_string now ++ ".png")%string.

(* ===================================================================== *)
(** ** Values derived on each render *)
(* ===================================================================== *)

(** [history[historyIndex] ?? null] and [history[0] ?? null]. *)
Definition currentImage (s : AppState) : option File :=
  JS.index (history s) (historyIndex s).

Definition originalImage (s : AppState) : option File :=
  JS.index (history s) 0.

Definition canUndo (s : AppState) : bool := 0 <? historyIndex s.

Definition canRedo (s : AppState) : bool :=
  historyIndex s <? Z.of_nat (length (history s)) - 1.

(** The [disabled] attribute of a button of the tab selector. *)
Definition tab_disabled (s : AppState) (tab : Tab) : bool :=
  Tab_eqb tab restore && negb (canUndo s).

(* ===================================================================== *)
(** ** Handlers *)
(* ===================================================================== *)

(** [addImageToHistory], called through a closure created in state [c] and
    writing into state [s]. *)
Definition addImageToHistory (c : AppState) (newImageFile : File)
    (s : AppState) : AppState :=
  let newHistory := JS.slice (history c) 0 (historyIndex c + 1) ++ [newImageFile] in
  setAdjustments defaultAdjustments
    (setCompletedCrop None
      (setCrop None
        (setHistoryIndex (Z.of_nat (length newHistory) - 1)
          (setHistory newHistory s)))).

(** Revoking the object URLs has no effect on the state cells. *)
Definition handleClearAllPropImages (s : AppState) : AppState :=
  setPropImageUrls [] (setPropImages [] s).

Definition remove_at {A} (i : Z) (l : list A) : list A :=
  map snd (filter (fun p => negb (Z.of_nat (fst p) =? i)) (imap pair l)).

Definition handleRemovePropImage (c : AppState) (indexToRemove : Z)
    (s : AppState) : AppState :=
  setPropImageUrls (remove_at indexToRemove (propImageUrls c))
    (setPropImages (remove_at indexToRemove (propImages c)) s).

Definition handleImageUpload (file : File) (s : AppState) : AppState :=
  setCompletedCrop None
    (setCrop None
      (setActiveTab retouch
        (setDisplayHotspot None
          (setEditHotspot None
            (setHistoryIndex 0
              (setHistory [file]
                (setError None
                  (handleClearAllPropImages s)))))))).

(** The external generation service answers with a data URL or rejects. *)
Inductive response : Type :=
| Resolved (dataUrl : string)
| Rejected (err : JS.thrown).

(** [err instanceof Error ? err.message : 'An unknown error occurred.'] *)
Definition error_message (err : JS.thrown) : string :=
  match err with
  | JS.ErrorObj m => m
  | JS.NonError => "An unknown error occurred."
  end.

(** Outcome of the [try] block up to and including [dataURLtoFile]. *)
Definition received_file (r : response) (prefix : string) (now : Z)
  : JS.thrown + File :=
  match r with
  | Rejected e => inl e
  | Resolved url => dataURLtoFile url (stamped_name prefix now)
  end.

(** [handleGenerate], first part: the guards and the two setters that run
    before the [await].  [None]: the handler returned at a guard. *)
Definition handleGenerate_begin (s : AppState) : option AppState :=
  match currentImage s with
  | None => None
  | Some _ =>
      if JS.trim_is_empty (prompt s) then None
      else
        match editHotspot s with
        | None => None
        | Some _ => Some (setError None (setIsLoading true s))
        end
  end.

(** [handleGenerate], after the [await]: [try], [catch] and [finally]. *)
Definition handleGenerate_settle (c : AppState) (r : response) (now : Z)
    (s : AppState) : AppState :=
  setIsLoading false
    match received_file r "edited" now with
    | inr newImageFile =>
        handleClearAllPropImages
          (setDisplayHotspot None
            (setEditHotspot None
              (addImageToHistory c newImageFile s)))
    | inl err => setError (Some (error_message err)) s
    end.

(** [handleApplyFilter] and [handleApplyAdjustment] differ only in the
    service they call and in the file name prefix. *)
Definition handleApply_begin (s : AppState) : option AppState :=
  match currentImage s with
  | None => None
  | Some _ => Some (setError None (setIsLoading true s))
  end.

Definition handleApply_settle (prefix : string) (c : AppState) (r : response)
    (now : Z) (s : AppState) : AppState :=
  setIsLoading false
    match received_file r prefix now with
    | inr newImageFile => addImageToHistory c newImageFile s
    | inl err => setError (Some (error_message err)) s
    end.

Definition handleApplyFilter_begin := handleApply_begin.
Definition handleApplyFilter_settle := handleApply_settle "filtered".
Definition handleApplyAdjustment_begin := handleApply_begin.
Definition handleApplyAdjustment_settle := handleApply_settle "adjusted".

(** A request that is started and settled with no other event in between. *)
Definition handleGenerate (r : response) (now : Z) (s : AppState) : AppState :=
  match handleGenerate_begin s with
  | None => s
  | Some s1 => handleGenerate_settle s r now s1
  end.

Definition handleApplyFilter (r : response) (now : Z) (s : AppState) : AppState :=
  match handleApplyFilter_begin s with
  | None => s
  | Some s1 => handleApplyFilter_settle s r now s1
  end.

Definition handleApplyAdjustment (r : response) (now : Z) (s : AppState) : AppState :=
  match handleApplyAdjustment_begin s with
  | None => s
  | Some s1 => handleApplyAdjustment_settle s r now s1
  end.

(** The handlers that serialise a canvas.  The data URL is what
    [canvas.toDataURL('image/png')] returned; a throwing [dataURLtoFile]
    leaves the handler before any setter ran. *)
Definition append_canvas (prefix : string) (c : AppState) (url : string)
    (now : Z) (s : AppState) : AppState :=
  match dataURLtoFile url (stamped_name prefix now) with
  | inr newImageFile => addImageToHistory c newImageFile s
  | inl _ => s
  end.

(** [handleApplyManualAdjustment]: the guard, then the [onload] callback. *)
Definition handleApplyManualAdjustment_guard (s : AppState) : bool :=
  match currentImage s with Some _ => true | None => false end.

Definition handleApplyManualAdjustment_onload (c : AppState)
    (adjustedUrl : string) (now : Z) (s : AppState) : AppState :=
  append_canvas "manual-adjusted" c adjustedUrl now s.

(** [handleApplyCrop]; [img_mounted] is [imgRef.current] being set. *)
Definition handleApplyCrop (img_mounted : bool) (croppedImageUrl : string)
    (now : Z) (s : AppState) : AppState :=
  match completedCrop s with
  | None => s
  | Some _ =>
      if img_mounted then append_canvas "cropped" s croppedImageUrl now s
      else s
  end.

(** [handleApplyRestore]; [None] is a display canvas that is not mounted. *)
Definition handleApplyRestore (restoredImageUrl : option string) (now : Z)
    (s : AppState) : AppState :=
  match restoredImageUrl with
  | None => setError (Some "Canvas not ready for applying restoration."%string) s
  | Some url =>
      match dataURLtoFile url (stamped_name "restored" now) with
      | inr newImageFile =>
          setActiveTab retouch (addImageToHistory s newImageFile s)
      | inl _ => s
      end
  end.

Definition handleUndo (s : AppState) : AppState :=
  if canUndo s then setHistoryIndex (historyIndex s - 1) s else s.

Definition handleRedo (s : AppState) : AppState :=
  if canRedo s then setHistoryIndex (historyIndex s + 1) s else s.

Definition handleReset (s : AppState) : AppState :=
  if (0 <? Z.of_nat (length (history s))) then setHistoryIndex 0 s else s.

Definition handleUploadNew (s : AppState) : AppState :=
  setPrompt ""
    (setError None
      (setHistoryIndex (-1)
        (setHistory []
          (handleClearAllPropImages s)))).

(** [handleFileSelect]: only the first file of a non-empty list is used. *)
Definition handleFileSelect (files : list File) (s : AppState) : AppState :=
  match files with
  | f :: _ => handleImageUpload f s
  | [] => s
  end.

(** [handlePropImageSelect]; [newUrls] are the object URLs created for
    [newFiles], one each. *)
Definition handlePropImageSelect (newFiles : list File) (newUrls : list string)
    (s : AppState) : AppState :=
  match newFiles with
  | [] => s
  | _ =>
      setPropImageUrls (propImageUrls s ++ newUrls)
        (setPropImages (propImages s ++ newFiles) s)
  end.

(* ===================================================================== *)
(** ** Numbers: rounding and conversions *)
(* ===================================================================== *)

Module Number.

(** The rational that a finite binary64 value denotes. *)
Definition exact (x : float) : option Q :=
  match Prim2SF x with
  | S754_zero _ => Some 0%Q
  | S754_finite sgn m e =>
      let n := if sgn then Z.neg m else Z.pos m in
      Some (if 0 <=? e then inject_Z (n * 2 ^ e)
            else Qmake n (Z.to_pos (2 ^ (- e))))
  | S754_infinity _ | S754_nan => None
  end.

Definition of_Z (n : Z) : float :=
  if n <? 0 then PrimFloat.opp (PrimFloat.of_uint63 (Uint63.of_Z (- n)))
  else PrimFloat.of_uint63 (Uint63.of_Z n).

(** [Math.round]: the nearest integer, ties towards +infinity.  A value
    with a non-negative exponent is an integer already; zeros, infinities
    and NaN are returned as they are; a result of zero keeps the sign of
    the argument. *)
Definition round (x : float) : float :=
  match Prim2SF x with
  | S754_finite sgn m e =>
      if 0 <=? e then x
      else
        let n := if sgn then Z.neg m else Z.pos m in
        let d := 2 ^ (- e) in
        let r := (2 * n + d) / (2 * d) in
        if r =? 0 then (if sgn then PrimFloat.opp 0 else 0%float)
        else of_Z r
  | _ => x
  end.

(** WebIDL conversion to [unsigned long]: truncate, then reduce modulo
    2^32; NaN and the infinities become 0. *)
Definition to_unsigned_long (x : float) : Z :=
  match Prim2SF x with
  | S754_finite sgn m e =>
      let mag := if 0 <=? e then Z.pos m * 2 ^ e else Z.pos m / 2 ^ (- e) in
      (if sgn then - mag else mag) mod 4294967296
  | _ => 0
  end.

End Number.

(* ===================================================================== *)
(** ** Coordinate mapping: [handleImageClick] *)
(* ===================================================================== *)

(** What the handlers read from an [HTMLImageElement] and its layout. *)
Record ImgElement : Type := mkImg {
  naturalWidth : float;
  naturalHeight : float;
  clientWidth : float;
  clientHeight : float;
  img_width : float;
  img_height : float;
  rect_left : float;
  rect_top : float
}.

Record MouseEvent : Type := mkMouse { clientX : float; clientY : float }.

(** The four [let] variables of [handleImageClick]. *)
Record Letterbox : Type := mkLetterbox {
  renderedWidth : float;
  renderedHeight : float;
  offsetX : float;
  offsetY : float
}.

Definition letterbox (img : ImgElement) : Letterbox :=
  let naturalAspect := (naturalWidth img / naturalHeight img)%float in
  let clientAspect := (clientWidth img / clientHeight img)%float in
  if PrimFloat.ltb clientAspect naturalAspect then
    let renderedHeight := (clientWidth img / naturalAspect)%float in
    {| renderedWidth := clientWidth img;
       renderedHeight := renderedHeight;
       offsetX := 0;
       offsetY := ((clientHeight img - renderedHeight) / 2)%float |}
  else
    let renderedWidth := (clientHeight img * naturalAspect)%float in
    {| renderedWidth := renderedWidth;
       renderedHeight := clientHeight img;
       offsetX := ((clientWidth img - renderedWidth) / 2)%float;
       offsetY := 0 |}.

(** The rejection test on the click position inside the element. *)
Definition outside_image (lb : Letterbox) (x y : float) : bool :=
  PrimFloat.ltb x (offsetX lb)
  || PrimFloat.ltb (offsetX lb + renderedWidth lb)%float x
  || PrimFloat.ltb y (offsetY lb)
  || PrimFloat.ltb (offsetY lb + renderedHeight lb)%float y.

(** [handleImageClick]; [container] is the top-left corner of
    [imageContainerRef.current], when mounted. *)
Definition handleImageClick (container : option (float * float))
    (img : ImgElement) (e : MouseEvent) (s : AppState) : AppState :=
  match container with
  | None => s
  | Some (containerLeft, containerTop) =>
      if negb (Tab_eqb (activeTab s) retouch) then s
      else
        let clickXInImageElement := (clientX e - rect_left img)%float in
        let clickYInImageElement := (clientY e - rect_top img)%float in
        let imgLeftInContainer := (rect_left img - containerLeft)%float in
        let imgTopInContainer := (rect_top img - containerTop)%float in
        let displayX := (imgLeftInContainer + clickXInImageElement)%float in
        let displayY := (imgTopInContainer + clickYInImageElement)%float in
        let lb := letterbox img in
        if outside_image lb clickXInImageElement clickYInImageElement then
          setDisplayHotspot None (setEditHotspot None s)
        else
          let imageX := (clickXInImageElement - offsetX lb)%float in
          let imageY := (clickYInImageElement - offsetY lb)%float in
          let scale := (naturalWidth img / renderedWidth lb)%float in
          let finalX := Number.round (imageX * scale) in
          let finalY := Number.round (imageY * scale) in
          setEditHotspot (Some (mkPoint finalX finalY))
            (setDisplayHotspot (Some (mkPoint displayX displayY)) s)
  end.

(* ===================================================================== *)
(** ** Crop extraction: [handleApplyCrop] *)
(* ===================================================================== *)

(** The [width]/[height] attribute of a canvas: an [unsigned long] limited
    to 2^31-1, with a fallback to the default above that. *)
Definition canvas_dimension (default : Z) (x : float) : Z :=
  let v := Number.to_unsigned_long x in
  if v <=? 2147483647 then v else default.

(** A rectangle given to [drawImage]. *)
Record Rect : Type := mkRect {
  rx : float;
  ry : float;
  rw : float;
  rh : float
}.

(** The canvas that [handleApplyCrop] builds: its size, and the single
    [drawImage(image, sx, sy, sw, sh, dx, dy, dw, dh)] issued on it. *)
Record CropCanvas : Type := mkCropCanvas {
  canvas_width : Z;
  canvas_height : Z;
  source_rect : Rect;
  dest_rect : Rect
}.

Definition cropCanvas (completedCrop : PixelCrop) (image : ImgElement)
  : CropCanvas :=
  let scaleX := (naturalWidth image / img_width image)%float in
  let scaleY := (naturalHeight image / img_height image)%float in
  {| canvas_width := canvas_dimension 300 (pc_width completedCrop);
     canvas_height := canvas_dimension 150 (pc_height completedCrop);
     source_rect :=
       mkRect (pc_x completedCrop * scaleX) (pc_y completedCrop * scaleY)
              (pc_width completedCrop * scaleX)
              (pc_height completedCrop * scaleY);
     dest_rect :=
       mkRect 0 0 (pc_width completedCrop) (pc_height completedCrop) |}.

(* ===================================================================== *)
(** ** The 2D canvas *)
(* ===================================================================== *)

Module Canvas.

(** A stored pixel: four 8-bit channels, straight (non-premultiplied)
    alpha, as [getImageData] and the PNG encoder see it.  The loss of
    precision of an implementation that keeps its bitmaps premultiplied is
    not modelled, except that a pixel of alpha zero has no colour. *)
Record RGBA : Type := mkRGBA { red : Z; green : Z; blue : Z; alpha : Z }.

Definition transparent_black : RGBA := mkRGBA 0 0 0 0.

(** A colour being drawn: components in the unit range, straight alpha. *)
Record Color : Type := mkColor { cr : Q; cg : Q; cb : Q; ca : Q }.

Definition unit_of (v : Z) : Q := (inject_Z v / 255)%Q.

Definition to_color (p : RGBA) : Color :=
  mkColor (unit_of (red p)) (unit_of (green p)) (unit_of (blue p))
          (unit_of (alpha p)).

(** Storing a channel: scale to 0..255, round to nearest, clamp. *)
Definition quantize (q : Q) : Z :=
  Z.max 0 (Z.min 255 (Qfloor (q + (1 # 2)))).

Definition store (v : Q) : Z := quantize (255 * v).

Definition clamp01 (q : Q) : Q :=
  if Qle_bool q 0 then 0%Q else if Qle_bool 1 q then 1%Q else q.

(** A bitmap; [pixel] is read only inside [width] x [height]. *)
Record Surface : Type := mkSurface {
  width : Z;
  height : Z;
  pixel : Z -> Z -> RGBA
}.

Definition in_bounds (s : Surface) (x y : Z) : bool :=
  (0 <=? x) && (x <? width s) && (0 <=? y) && (y <? height s).

Definition sample (s : Surface) (x y : Z) : RGBA :=
  if in_bounds s x y then pixel s x y else transparent_black.

(** *** Compositing and blending *)

(** The values of [globalCompositeOperation] that the component uses. *)
Inductive operator : Type :=
| source_over | destination_in | overlay | color_dodge.

(** Porter-Duff coefficients.  The blend modes composite with
    source-over. *)
Definition Fa (op : operator) : Q :=
  match op with
  | destination_in => 0
  | source_over | overlay | color_dodge => 1
  end%Q.

Definition Fb (op : operator) (alpha_s : Q) : Q :=
  match op with
  | destination_in => alpha_s
  | source_over | overlay | color_dodge => 1 - alpha_s
  end%Q.

Definition multiply (a b : Q) : Q := (a * b)%Q.
Definition screen (a b : Q) : Q := (a + b - a * b)%Q.

(** The blend function B(Cb, Cs). *)
Definition blend (op : operator) (c_b c_s : Q) : Q :=
  match op with
  | source_over | destination_in => c_s
  | overlay =>
      if Qle_bool c_b (1 # 2) then multiply c_s (2 * c_b)
      else screen c_s (2 * c_b - 1)
  | color_dodge =>
      if Qeq_bool c_b 0 then 0
      else if Qeq_bool c_s 1 then 1
      else Qmin 1 (c_b / (1 - c_s))
  end%Q.

(** One channel of the result, before it is stored. *)
Definition composite_channel (op : operator) (alpha_s alpha_b c_s c_b : Q) : Q :=
  let alpha_o := (alpha_s * Fa op + alpha_b * Fb op alpha_s)%Q in
  let c_s' := ((1 - alpha_b) * c_s + alpha_b * blend op c_b c_s)%Q in
  ((alpha_s * Fa op * c_s' + alpha_b * Fb op alpha_s * c_b) / alpha_o)%Q.

(** Drawing colour [src] on the stored pixel [backdrop].  A result whose
    stored alpha is zero carries no colour. *)
Definition composite (op : operator) (src : Color) (backdrop : RGBA) : RGBA :=
  let alpha_s := ca src in
  let alpha_b := unit_of (alpha backdrop) in
  let alpha_o := (alpha_s * Fa op + alpha_b * Fb op alpha_s)%Q in
  let a_out := store alpha_o in
  if a_out =? 0 then transparent_black
  else
    mkRGBA
      (store (composite_channel op alpha_s alpha_b (cr src) (unit_of (red backdrop))))
      (store (composite_channel op alpha_s alpha_b (cg src) (unit_of (green backdrop))))
      (store (composite_channel op alpha_s alpha_b (cb src) (unit_of (blue backdrop))))
      a_out.

(** *** CSS filter functions *)

Inductive filter_function : Type :=
| Brightness (amount : Q)
| Contrast (amount : Q)
| Saturate (amount : Q).

Definition apply_filter (f : filter_function) (c : Color) : Color :=
  match f with
  | Brightness k =>
      mkColor (clamp01 (k * cr c)) (clamp01 (k * cg c)) (clamp01 (k * cb c)) (ca c)
  | Contrast k =>
      let t v := clamp01 (k * v - (1 # 2) * k + (1 # 2)) in
      mkColor (t (cr c)) (t (cg c)) (t (cb c)) (ca c)
  | Saturate s =>
      let r := cr c in let g := cg c in let b := cb c in
      mkColor
        (clamp01 (((213 # 1000) + (787 # 1000) * s) * r
                  + ((715 # 1000) - (715 # 1000) * s) * g
                  + ((72 # 1000) - (72 # 1000) * s) * b))
        (clamp01 (((213 # 1000) - (213 # 1000) * s) * r
                  + ((715 # 1000) + (285 # 1000) * s) * g
                  + ((72 # 1000) - (72 # 1000) * s) * b))
        (clamp01 (((213 # 1000) - (213 # 1000) * s) * r
                  + ((715 # 1000) - (715 # 1000) * s) * g
                  + ((72 # 1000) + (928 # 1000) * s) * b))
        (ca c)
  end%Q.

(** A filter list is applied left to right. *)
Definition apply_filters (fs : list filter_function) (c : Color) : Color :=
  foldl (fun acc f => apply_filter f acc) c fs.

(** *** The rendering context *)

Record Context2D : Type := mkContext {
  bitmap : Surface;
  filter : list filter_function;
  globalCompositeOperation : operator;
  fillStyle : Color
}.

(** [document.createElement('canvas')] with its size set: transparent. *)
Definition createCanvas (w h : Z) : Surface :=
  mkSurface w h (fun _ _ => transparent_black).

(** [canvas.getContext('2d')]: no filter, source-over, black fill. *)
Definition getContext (canvas : Surface) : Context2D :=
  mkContext canvas [] source_over (mkColor 0 0 0 1).

Definition set_filter (fs : option (list filter_function)) (ctx : Context2D)
  : Context2D :=
  match fs with
  | Some l => mkContext (bitmap ctx) l (globalCompositeOperation ctx) (fillStyle ctx)
  | None => ctx
  end.

Definition set_globalCompositeOperation (op : operator) (ctx : Context2D)
  : Context2D :=
  mkContext (bitmap ctx) (filter ctx) op (fillStyle ctx).

(** Assigning a string that is not a colour leaves [fillStyle] as it is. *)
Definition set_fillStyle (c : option Color) (ctx : Context2D) : Context2D :=
  match c with
  | Some col => mkContext (bitmap ctx) (filter ctx) (globalCompositeOperation ctx) col
  | None => ctx
  end.

(** The drawing model: the shape is rendered on transparent black, the
    current filter is applied to that rendering, and the result is
    composited on the bitmap with the current operator. *)
Definition paint (shape : Z -> Z -> Color) (ctx : Context2D) : Context2D :=
  let b := bitmap ctx in
  mkContext
    (mkSurface (width b) (height b)
       (fun x y =>
          composite (globalCompositeOperation ctx)
                    (apply_filters (filter ctx) (shape x y))
                    (pixel b x y)))
    (filter ctx) (globalCompositeOperation ctx) (fillStyle ctx).

(** [ctx.drawImage(image, dx, dy)] at the natural size of the image. *)
Definition drawImage (image : Surface) (dx dy : Z) (ctx : Context2D)
  : Context2D :=
  paint (fun x y => to_color (sample image (x - dx) (y - dy))) ctx.

(** A resampler: the image scaled to a given size. *)
Definition resampler : Type := Surface -> Z -> Z -> Surface.

(** [ctx.drawImage(image, dx, dy, dw, dh)]: the image is resampled only
    when the destination size differs from its own. *)
Definition drawImage_scaled (rs : resampler) (image : Surface)
    (dx dy dw dh : Z) (ctx : Context2D) : Context2D :=
  if (dw =? width image) && (dh =? height image) then drawImage image dx dy ctx
  else drawImage (rs image dw dh) dx dy ctx.

Definition in_rect (x y w h px py : Z) : bool :=
  (x <=? px) && (px <? x + w) && (y <=? py) && (py <? y + h).

Definition transparent_color : Color := mkColor 0 0 0 0.

(** [ctx.fillRect(x, y, w, h)]. *)
Definition fillRect (x y w h : Z) (ctx : Context2D) : Context2D :=
  paint (fun px py => if in_rect x y w h px py then fillStyle ctx
                      else transparent_color) ctx.

(** [ctx.clearRect(x, y, w, h)]. *)
Definition clearRect (x y w h : Z) (ctx : Context2D) : Context2D :=
  let b := bitmap ctx in
  mkContext
    (mkSurface (width b) (height b)
       (fun px py => if in_rect x y w h px py then transparent_black
                     else pixel b px py))
    (filter ctx) (globalCompositeOperation ctx) (fillStyle ctx).

(** The amount inside [brightness(...)], [contrast(...)], [saturate(...)]:
    a number that is not finite or is negative makes the declaration
    invalid. *)
Definition filter_amount (x : float) : option Q :=
  match Number.exact x with
  | Some q => if Qle_bool 0 q then Some q else None
  | None => None
  end.

(** [rgba(r, g, b, a)] with the alpha computed by the script: the alpha is
    clamped to the unit range; a non-finite one is not a colour. *)
Definition css_rgba (r g b : Z) (a : float) : option Color :=
  match Number.exact a with
  | Some q => Some (mkColor (unit_of r) (unit_of g) (unit_of b) (clamp01 q))
  | None => None
  end.

End Canvas.

(* ===================================================================== *)
(** ** Manual adjustment: the canvas of [handleApplyManualAdjustment] *)
(* ===================================================================== *)

(** [filters.join(' ')] as a parsed filter list; [None] when a function of
    the list is invalid, in which case the assignment to [ctx.filter] is
    ignored. *)
Definition manual_filters (adjustments : ManualAdjustments)
  : option (list Canvas.filter_function) :=
  match Canvas.filter_amount (1 + exposure adjustments / 100)%float,
        Canvas.filter_amount (1 + contrast adjustments / 100)%float,
        Canvas.filter_amount (1 + saturation adjustments / 100)%float with
  | Some b, Some c, Some s =>
      Some [Canvas.Brightness b; Canvas.Contrast c; Canvas.Saturate s]
  | _, _, _ => None
  end.

(** The body of the [onload] callback up to [canvas.toDataURL]. *)
Definition manualAdjustCanvas (adjustments : ManualAdjustments)
    (image : Canvas.Surface) : Canvas.Surface :=
  let w := Canvas.width image in
  let h := Canvas.height image in
  let ctx := Canvas.getContext (Canvas.createCanvas w h) in
  let ctx := Canvas.set_filter (manual_filters adjustments) ctx in
  let ctx := Canvas.drawImage image 0 0 ctx in
  let ctx := Canvas.set_globalCompositeOperation Canvas.overlay ctx in
  let ctx :=
    if PrimFloat.ltb 0 (temperature adjustments) then
      Canvas.fillRect 0 0 w h
        (Canvas.set_fillStyle
           (Canvas.css_rgba 255 165 0 (temperature adjustments / 200)%float) ctx)
    else if PrimFloat.ltb (temperature adjustments) 0 then
      Canvas.fillRect 0 0 w h
        (Canvas.set_fillStyle
           (Canvas.css_rgba 0 100 255 (- temperature adjustments / 200)%float) ctx)
    else ctx in
  let ctx := Canvas.set_globalCompositeOperation Canvas.color_dodge ctx in
  let ctx :=
    if PrimFloat.ltb 0 (tint adjustments) then
      Canvas.fillRect 0 0 w h
        (Canvas.set_fillStyle
           (Canvas.css_rgba 255 0 255 (tint adjustments / 400)%float) ctx)
    else if PrimFloat.ltb (tint adjustments) 0 then
      Canvas.fillRect 0 0 w h
        (Canvas.set_fillStyle
           (Canvas.css_rgba 0 255 0 (- tint adjustments / 400)%float) ctx)
    else ctx in
  Canvas.bitmap ctx.

(* ===================================================================== *)
(** ** Mask compositor: [redrawComposite] *)
(* ===================================================================== *)

(** The refs read by [redrawComposite]: the two canvases and
    [imageObjectsRef.current]. *)
Record RestoreRefs : Type := mkRefs {
  displayCanvas : option Canvas.Surface;
  maskCanvas : option Canvas.Surface;
  image_current : option Canvas.Surface;
  image_previous : option Canvas.Surface
}.

Definition redrawComposite (rs : Canvas.resampler) (refs : RestoreRefs)
  : RestoreRefs :=
  match displayCanvas refs, maskCanvas refs,
        image_current refs, image_previous refs with
  | Some display, Some mask, Some current, Some previous =>
      let width := Canvas.width display in
      let height := Canvas.height display in
      let displayCtx := Canvas.getContext display in
      let displayCtx :=
        Canvas.set_globalCompositeOperation Canvas.source_over displayCtx in
      let displayCtx := Canvas.clearRect 0 0 width height displayCtx in
      let displayCtx :=
        Canvas.drawImage_scaled rs current 0 0 width height displayCtx in
      let tempCtx := Canvas.getContext (Canvas.createCanvas width height) in
      let tempCtx :=
        Canvas.drawImage_scaled rs previous 0 0 width height tempCtx in
      let tempCtx :=
        Canvas.set_globalCompositeOperation Canvas.destination_in tempCtx in
      let tempCtx := Canvas.drawImage mask 0 0 tempCtx in
      let displayCtx := Canvas.drawImage (Canvas.bitmap tempCtx) 0 0 displayCtx in
      mkRefs (Some (Canvas.bitmap displayCtx)) (maskCanvas refs)
             (image_current refs) (image_previous refs)
  | _, _, _, _ => refs
  end.

(* ===================================================================== *)
(** ** The states the component can be in *)
(* ===================================================================== *)

(** The [onClick] of the button of the error panel. *)
Definition dismissError (s : AppState) : AppState := setError None s.

(** Every state change of [App] is one of these.  A handler that finishes
    after an [await] or in an [onload] callback was created in some earlier
    state [c], whose cells it still reads. *)
Inductive reachable : AppState -> Prop :=
| reach_init : reachable initialState
| reach_fileSelect s files :
    reachable s -> reachable (handleFileSelect files s)
| reach_uploadNew s : reachable s -> reachable (handleUploadNew s)
| reach_undo s : reachable s -> reachable (handleUndo s)
| reach_redo s : reachable s -> reachable (handleRedo s)
| reach_reset s : reachable s -> reachable (handleReset s)
| reach_tab s tab :
    reachable s -> tab_disabled s tab = false -> reachable (setActiveTab tab s)
| reach_prompt s v : reachable s -> reachable (setPrompt v s)
| reach_dismiss s : reachable s -> reachable (dismissError s)
| reach_click s container img e :
    reachable s -> reachable (handleImageClick container img e s)
| reach_crop s v : reachable s -> reachable (setCrop v s)
| reach_completedCrop s v : reachable s -> reachable (setCompletedCrop v s)
| reach_aspect s v : reachable s -> reachable (setAspect v s)
| reach_comparing s v : reachable s -> reachable (setIsComparing v s)
| reach_draggingProp s v : reachable s -> reachable (setIsDraggingProp v s)
| reach_brushSize s v : reachable s -> reachable (setBrushSize v s)
| reach_brushOpacity s v : reachable s -> reachable (setBrushOpacity v s)
| reach_painting s v : reachable s -> reachable (setIsPainting v s)
| reach_brushCursor s v : reachable s -> reachable (setShowBrushCursor v s)
| reach_brushPosition s v : reachable s -> reachable (setBrushPosition v s)
| reach_adjustments s v : reachable s -> reachable (setAdjustments v s)
| reach_propSelect s newFiles newUrls :
    reachable s -> reachable (handlePropImageSelect newFiles newUrls s)
| reach_propRemove s i :
    reachable s -> reachable (handleRemovePropImage s i s)
| reach_generate_begin s s1 :
    reachable s -> handleGenerate_begin s = Some s1 -> reachable s1
| reach_generate_settle c s r now :
    reachable c -> is_Some (handleGenerate_begin c) -> reachable s ->
    reachable (handleGenerate_settle c r now s)
| reach_filter_begin s s1 :
    reachable s -> handleApplyFilter_begin s = Some s1 -> reachable s1
| reach_filter_settle c s r now :
    reachable c -> is_Some (handleApplyFilter_begin c) -> reachable s ->
    reachable (handleApplyFilter_settle c r now s)
| reach_adjustment_begin s s1 :
    reachable s -> handleApplyAdjustment_begin s = Some s1 -> reachable s1
| reach_adjustment_settle c s r now :
    reachable c -> is_Some (handleApplyAdjustment_begin c) -> reachable s ->
    reachable (handleApplyAdjustment_settle c r now s)
| reach_manual c s url now :
    reachable c -> handleApplyManualAdjustment_guard c = true -> reachable s ->
    reachable (handleApplyManualAdjustment_onload c url now s)
| reach_applyCrop s mounted url now :
    reachable s -> reachable (handleApplyCrop mounted url now s)
| reach_applyRestore s url now :
    reachable s -> reachable (handleApplyRestore url now s).

(** The cursor is -1 on an empty history and an index of it otherwise. *)
Definition history_wf (s : AppState) : Prop :=
  (history s = [] /\ historyIndex s = -1)
  \/ 0 <= historyIndex s < Z.of_nat (length (history s)).

(** Bitmaps as the decoder delivers them: 8-bit channels and no colour
    under zero alpha (bitmaps are kept premultiplied). *)
Definition valid_pixel (p : Canvas.RGBA) : Prop :=
  0 <= Canvas.red p <= 255 /\ 0 <= Canvas.green p <= 255
  /\ 0 <= Canvas.blue p <= 255 /\ 0 <= Canvas.alpha p <= 255
  /\ (Canvas.alpha p = 0 ->
      Canvas.red p = 0 /\ Canvas.green p = 0 /\ Canvas.blue p = 0).

Definition valid_surface (s : Canvas.Surface) : Prop :=
  forall x y, Canvas.in_bounds s x y = true -> valid_pixel (Canvas.pixel s x y).

Definition opaque_surface (s : Canvas.Surface) : Prop :=
  forall x y, Canvas.in_bounds s x y = true ->
    Canvas.alpha (Canvas.pixel s x y) = 255.

Definition same_size (a b : Canvas.Surface) : Prop :=
  Canvas.width a = Canvas.width b /\ Canvas.height a = Canvas.height b.

Definition pixel_identical (a b : Canvas.Surface) : Prop :=
  same_size a b
  /\ forall x y, Canvas.in_bounds a x y = true ->
       Canvas.pixel a x y = Canvas.pixel b x y.

(** Mask alpha constant over the surface. *)
Definition mask_alpha_everywhere (mask : Canvas.Surface) (a : Z) : Prop :=
  forall x y, Canvas.in_bounds mask x y = true ->
    Canvas.alpha (Canvas.pixel mask x y) = a.

(** Linear interpolation of two 8-bit channels with an 8-bit weight [m] on
    [previous], stored back as 8 bits. *)
Definition lerp_channel (current previous m : Z) : Z :=
  Canvas.quantize
    ((inject_Z previous * inject_Z m + inject_Z current * inject_Z (255 - m)) / 255)%Q.

(** The overlay formula in the words of the specification, on the 0..255
    scale. *)
Definition spec_overlay (base blend : Z) : Q :=
  if base <=? 127 then (2 * inject_Z base * inject_Z blend / 255)%Q
  else (255 - 2 * inject_Z (255 - base) * inject_Z (255 - blend) / 255)%Q.

(** Overlay of a flat colour at opacity [a] on an opaque 8-bit channel, in
    the words of the specification. *)
Definition spec_tinted (a : Q) (base blend : Z) : Z :=
  Canvas.quantize ((1 - a) * inject_Z base + a * spec_overlay base blend)%Q.

(** What [redrawComposite] computes at one pixel when the four surfaces
    have the same size: the previous pixel, cut by the mask, drawn over the
    current pixel. *)
Definition recompose_pixel (current previous mask : Canvas.RGBA) : Canvas.RGBA :=
  Canvas.composite Canvas.source_over
    (Canvas.to_color
       (Canvas.composite Canvas.destination_in (Canvas.to_color mask)
          (Canvas.composite Canvas.source_over (Canvas.to_color previous)
             Canvas.transparent_black)))
    (Canvas.composite Canvas.source_over (Canvas.to_color current)
       Canvas.transparent_black).

(** Colours up to equality of rationals, and colours in the unit range. *)
Definition color_eq (c c' : Canvas.Color) : Prop :=
  (Canvas.cr c == Canvas.cr c')%Q /\ (Canvas.cg c == Canvas.cg c')%Q
  /\ (Canvas.cb c == Canvas.cb c')%Q /\ (Canvas.ca c == Canvas.ca c')%Q.

Definition unit_color (c : Canvas.Color) : Prop :=
  (0 <= Canvas.cr c <= 1)%Q /\ (0 <= Canvas.cg c <= 1)%Q
  /\ (0 <= Canvas.cb c <= 1)%Q.

Definition amount_of (f : Canvas.filter_function) : Q :=
  match f with
  | Canvas.Brightness k | Canvas.Contrast k | Canvas.Saturate k => k
  end.

(** A surface of one colour, and a nearest-neighbour resampler, used as
    concrete inputs. *)
Definition flat (w h : Z) (p : Canvas.RGBA) : Canvas.Surface :=
  Canvas.mkSurface w h (fun _ _ => p).

Definition nearest_neighbour : Canvas.resampler :=
  fun image dw dh =>
    Canvas.mkSurface dw dh
      (fun x y =>
         Canvas.sample image (x * Canvas.width image / dw)
                             (y * Canvas.height image / dh)).

(** The callback of the effect that starts a restore session: both canvases
    take the natural size of the current image (which clears them), the
    mask is cleared and the current image is drawn on the display canvas. *)
Definition restoreSessionStart (rs : Canvas.resampler)
    (current previous : Canvas.Surface) : RestoreRefs :=
  let naturalWidth := Canvas.width current in
  let naturalHeight := Canvas.height current in
  let maskCtx :=
    Canvas.clearRect 0 0 naturalWidth naturalHeight
      (Canvas.getContext (Canvas.createCanvas naturalWidth naturalHeight)) in
  let displayCtx :=
    Canvas.drawImage_scaled rs current 0 0 naturalWidth naturalHeight
      (Canvas.getContext (Canvas.createCanvas naturalWidth naturalHeight)) in
  mkRefs (Some (Canvas.bitmap displayCtx)) (Some (Canvas.bitmap maskCtx))
         (Some current) (Some previous).

(** A state with a request ready to be sent: one image loaded, a hotspot
    set, a prompt typed and one prop image attached. *)
Definition pending_edit_state : AppState :=
  handlePropImageSelect [mkFile [1] "prop.png" "image/png"] ["blob:prop"%string]
    (setPrompt "add a hat"
      (setEditHotspot (Some (mkPoint 5 5))
        (handleImageUpload (mkFile [0] "base.png" "image/png") initialState))).

(** A session in which the restore button is disabled although an edit is
    in the history: load an image, apply a filter, undo. *)
Definition undone_edit_state : AppState :=
  handleUndo
    (handleApplyFilter (Resolved "data:image/png;base64,QUJD") 7
       (handleFileSelect [mkFile [0] "base.png" "image/png"] initialState)).

(* ===================================================================== *)
(** ** Further handlers and components *)
(* ===================================================================== *)

(** [handlePropDrop]: the drag highlight is removed and a non-empty drop is
    handed to [handlePropImageSelect]. *)
Definition handlePropDrop (files : list File) (newUrls : list string)
    (s : AppState) : AppState :=
  handlePropImageSelect files newUrls (setIsDraggingProp false s).

(** *** The restore brush: pointer handlers *)

(** [getBoundingClientRect()]. *)
Record DOMRect : Type := mkDOMRect {
  dr_left : float;
  dr_top : float;
  dr_right : float;
  dr_bottom : float;
  dr_width : float;
  dr_height : float
}.

(** What the pointer handlers read from [displayCanvasRef.current]: the
    size of its backing store and its box on screen. *)
Record CanvasElement : Type := mkCanvasElement {
  ce_width : Z;
  ce_height : Z;
  ce_rect : DOMRect
}.

Definition getCanvasCoordinates (canvas : option CanvasElement)
    (e : MouseEvent) : option Point :=
  match canvas with
  | None => None
  | Some cv =>
      let rect := ce_rect cv in
      if PrimFloat.ltb (clientX e) (dr_left rect)
         || PrimFloat.ltb (dr_right rect) (clientX e)
         || PrimFloat.ltb (clientY e) (dr_top rect)
         || PrimFloat.ltb (dr_bottom rect) (clientY e)
      then None
      else
        let x := (clientX e - dr_left rect)%float in
        let y := (clientY e - dr_top rect)%float in
        let scaleX := (Number.of_Z (ce_width cv) / dr_width rect)%float in
        let scaleY := (Number.of_Z (ce_height cv) / dr_height rect)%float in
        Some (mkPoint (x * scaleX) (y * scaleY))
  end.

(** One call of [drawOnMask] that reached [maskCtx.stroke()]: the segment,
    the line width and the alpha of the stroke style.  Rasterising the
    stroke is left to the canvas. *)
Record Stroke : Type := mkStroke {
  stroke_start : Point;
  stroke_end : Point;
  stroke_lineWidth : float;
  stroke_alpha : float
}.

(** The state the pointer handlers work on: the cells of [App], the ref
    [lastPointRef] and the strokes issued so far, oldest first. *)
Record Brush : Type := mkBrush {
  brush_app : AppState;
  lastPointRef : option Point;
  strokes : list Stroke
}.

Definition drawOnMask (canvas : option CanvasElement) (start stop : Point)
    (b : Brush) : Brush :=
  match canvas with
  | None => b
  | Some cv =>
      let scale := (Number.of_Z (ce_width cv) / dr_width (ce_rect cv))%float in
      mkBrush (brush_app b) (lastPointRef b)
        (strokes b ++
           [mkStroke start stop (brushSize (brush_app b) * scale)
                     (brushOpacity (brush_app b) / 100)])
  end.

Definition handleCanvasMouseDown (canvas : option CanvasElement)
    (e : MouseEvent) (b : Brush) : Brush :=
  match getCanvasCoordinates canvas e with
  | None => b
  | Some coords =>
      drawOnMask canvas coords coords
        (mkBrush (setIsPainting true (brush_app b)) (Some coords) (strokes b))
  end.

(** [container] is the top-left corner of [e.currentTarget]. *)
Definition handleCanvasMouseMove (canvas : option CanvasElement)
    (container : float * float) (e : MouseEvent) (b : Brush) : Brush :=
  let app :=
    setBrushPosition
      (mkPoint (clientX e - fst container) (clientY e - snd container))
      (brush_app b) in
  if negb (isPainting (brush_app b)) then mkBrush app (lastPointRef b) (strokes b)
  else
    match getCanvasCoordinates canvas e with
    | None => mkBrush app None (strokes b)
    | Some coords =>
        let last :=
          match lastPointRef b with
          | Some p => p
          | None => coords
          end in
        let b' := drawOnMask canvas last coords (mkBrush app (Some last) (strokes b)) in
        mkBrush (brush_app b') (Some coords) (strokes b')
    end.

Definition handleCanvasMouseUp (b : Brush) : Brush :=
  mkBrush (setIsPainting false (brush_app b)) None (strokes b).

Definition handleCanvasMouseLeave (b : Brush) : Brush :=
  mkBrush (setIsPainting false (setShowBrushCursor false (brush_app b))) None
          (strokes b).

(** The pointer events of the restore canvas container. *)
Inductive PointerEvent : Type :=
| MouseDown (e : MouseEvent)
| MouseMove (container : float * float) (e : MouseEvent)
| MouseUp
| MouseLeave
| MouseEnter.

Definition pointer_step (canvas : option CanvasElement) (ev : PointerEvent)
    (b : Brush) : Brush :=
  match ev with
  | MouseDown e => handleCanvasMouseDown canvas e b
  | MouseMove container e => handleCanvasMouseMove canvas container e b
  | MouseUp => handleCanvasMouseUp b
  | MouseLeave => handleCanvasMouseLeave b
  | MouseEnter =>
      mkBrush (setShowBrushCursor true (brush_app b)) (lastPointRef b) (strokes b)
  end.

Definition pointer_run (canvas : option CanvasElement)
    (evs : list PointerEvent) (b : Brush) : Brush :=
  foldl (fun acc ev => pointer_step canvas ev acc) b evs.

(** Each stroke starts where the one before it ended, or is a dot. *)
Fixpoint connected (l : list Stroke) : Prop :=
  match l with
  | a :: (b :: _) as rest =>
      (stroke_start b = stroke_end a \/ stroke_start b = stroke_end b)
      /\ connected rest
  | _ => True
  end.

(** *** [ManualAdjustmentPanel] *)

(** [keyof ManualAdjustments]. *)
Inductive AdjustmentKey : Type :=
| key_temperature | key_tint | key_exposure | key_contrast | key_highlights
| key_shadows | key_whites | key_blacks | key_clarity | key_vibrance
| key_saturation.

(** [adjustments[key]]. *)
Definition adjustment_get (key : AdjustmentKey) (a : ManualAdjustments) : float :=
  match key with
  | key_temperature => temperature a
  | key_tint => tint a
  | key_exposure => exposure a
  | key_contrast => contrast a
  | key_highlights => highlights a
  | key_shadows => shadows a
  | key_whites => whites a
  | key_blacks => blacks a
  | key_clarity => clarity a
  | key_vibrance => vibrance a
  | key_saturation => saturation a
  end.

(** [{ ...adjustments, [key]: value }]. *)
Definition adjustment_set (key : AdjustmentKey) (value : float)
    (a : ManualAdjustments) : ManualAdjustments :=
  let 'mkAdjustments te ti ex co hi sh wh bl cl vi sa := a in
  match key with
  | key_temperature => mkAdjustments value ti ex co hi sh wh bl cl vi sa
  | key_tint => mkAdjustments te value ex co hi sh wh bl cl vi sa
  | key_exposure => mkAdjustments te ti value co hi sh wh bl cl vi sa
  | key_contrast => mkAdjustments te ti ex value hi sh wh bl cl vi sa
  | key_highlights => mkAdjustments te ti ex co value sh wh bl cl vi sa
  | key_shadows => mkAdjustments te ti ex co hi value wh bl cl vi sa
  | key_whites => mkAdjustments te ti ex co hi sh value bl cl vi sa
  | key_blacks => mkAdjustments te ti ex co hi sh wh value cl vi sa
  | key_clarity => mkAdjustments te ti ex co hi sh wh bl value vi sa
  | key_vibrance => mkAdjustments te ti ex co hi sh wh bl cl value sa
  | key_saturation => mkAdjustments te ti ex co hi sh wh bl cl vi value
  end.

(** [handleSliderChange] and [handleResetSlider]: the vector handed to
    [onAdjustmentChange], which [App] wires to [setAdjustments]. *)
Definition handleSliderChange (adjustments : ManualAdjustments)
    (key : AdjustmentKey) (value : float) : ManualAdjustments :=
  adjustment_set key value adjustments.

Definition handleResetSlider (adjustments : ManualAdjustments)
    (key : AdjustmentKey) : ManualAdjustments :=
  adjustment_set key (adjustment_get key defaultAdjustments) adjustments.

(** How [JSON.stringify] renders a number, up to the spelling of the
    digits: NaN and the infinities become [null], both zeros become [0],
    and any other number is rendered so that it reads back as itself. *)
Inductive JsonNumber : Type :=
| json_null
| json_zero
| json_finite (sgn : bool) (m : positive) (e : Z).

Definition json_number (x : float) : JsonNumber :=
  match Prim2SF x with
  | S754_zero _ => json_zero
  | S754_finite sgn m e => json_finite sgn m e
  | S754_infinity _ | S754_nan => json_null
  end.

Definition JsonNumber_eqb (a b : JsonNumber) : bool :=
  match a, b with
  | json_null, json_null | json_zero, json_zero => true
  | json_finite s m e, json_finite s' m' e' =>
      Bool.eqb s s' && (m =? m')%positive && (e =? e')
  | _, _ => false
  end.

(** [JSON.stringify] of the vector: the eleven values in key order. *)
Definition json_adjustments (a : ManualAdjustments) : list JsonNumber :=
  map json_number
    [temperature a; tint a; exposure a; contrast a; highlights a; shadows a;
     whites a; blacks a; clarity a; vibrance a; saturation a].

Fixpoint json_list_eqb (l k : list JsonNumber) : bool :=
  match l, k with
  | [], [] => true
  | a :: l', b :: k' => JsonNumber_eqb a b && json_list_eqb l' k'
  | _, _ => false
  end.

(** [JSON.stringify(adjustments) !== JSON.stringify(defaultAdjustments)]. *)
Definition hasChanges (adjustments : ManualAdjustments) : bool :=
  negb (json_list_eqb (json_adjustments adjustments)
                      (json_adjustments defaultAdjustments)).

(** The [disabled] attribute of the Apply and Reset buttons of the panel. *)
Definition apply_disabled (isLoading : bool) (adjustments : ManualAdjustments)
  : bool :=
  isLoading || negb (hasChanges adjustments).

(** *** Base64 encoding *)

(** The encoder that [atob] inverts ([btoa], and the payload of the data
    URLs that [toDataURL] returns). *)
Module Base64Encode.

Definition digit (v : Z) : ascii :=
  ascii_of_nat
    (Z.to_nat
       (if v <? 26 then v + 65
        else if v <? 52 then v + 71
        else if v <? 62 then v - 4
        else if v =? 62 then 43 else 47)).

Definition pad : ascii := ascii_of_nat 61.

Fixpoint encode_groups (bytes : list Z) : list ascii :=
  match bytes with
  | a :: b :: c :: rest =>
      let n := a * 65536 + b * 256 + c in
      digit (n / 262144) :: digit ((n / 4096) mod 64)
      :: digit ((n / 64) mod 64) :: digit (n mod 64) :: encode_groups rest
  | [a; b] =>
      let n := (a * 256 + b) * 4 in
      [digit (n / 4096); digit ((n / 64) mod 64); digit (n mod 64); pad]
  | [a] =>
      let n := a * 16 in
      [digit (n / 64); digit (n mod 64); pad; pad]
  | [] => []
  end.

Definition btoa (bytes : list Z) : string :=
  string_of_list_ascii (encode_groups bytes).

End Base64Encode.

(** A data URL with a base64 payload. *)
Definition data_url (mime : string) (bytes : list Z) : string :=
  ("data:" ++ mime ++ ";base64," ++ Base64Encode.btoa bytes)%string.

(** The characters of a string. *)
Definition has_char (n : nat) (s : string) : Prop :=
  In (ascii_of_nat n) (list_ascii_of_string s).

(** *** Notions used in the statements about these *)

(** The two hotspot cells are set together. *)
Definition hotspots_paired (s : AppState) : Prop :=
  editHotspot s = None <-> displayHotspot s = None.

(** Each prop image has its object URL. *)
Definition props_aligned (s : AppState) : Prop :=
  length (propImages s) = length (propImageUrls s).

(** The strokes are connected, and a remembered last point is the end of
    the latest stroke. *)
Definition brush_inv (b : Brush) : Prop :=
  connected (strokes b)
  /\ forall p, lastPointRef b = Some p ->
       exists st, last (strokes b) = Some st /\ stroke_end st = p.

(** The pointer events other than a mouse down. *)
Definition is_hover (ev : PointerEvent) : bool :=
  match ev with
  | MouseMove _ _ | MouseEnter | MouseUp | MouseLeave => true
  | MouseDown _ => false
  end.

Definition byte_range (b : Z) : Prop := 0 <= b < 256.

(** The encoding without its padding: what [atob] decodes after it has
    dropped the trailing [=]. *)
Fixpoint encode_unpadded (bytes : list Z) : list ascii :=
  match bytes with
  | a :: b :: c :: rest =>
      let n := a * 65536 + b * 256 + c in
      Base64Encode.digit (n / 262144) :: Base64Encode.digit ((n / 4096) mod 64)
      :: Base64Encode.digit ((n / 64) mod 64) :: Base64Encode.digit (n mod 64)
      :: encode_unpadded rest
  | [a; b] =>
      let n := (a * 256 + b) * 4 in
      [Base64Encode.digit (n / 4096); Base64Encode.digit ((n / 64) mod 64);
       Base64Encode.digit (n mod 64)]
  | [a] =>
      let n := a * 16 in
      [Base64Encode.digit (n / 64); Base64Encode.digit (n mod 64)]
  | [] => []
  end.

(** A context whose bitmap has the size of [image], holds only results of
    compositing, and is opaque wherever [image] is. *)
Definition drawn_from (image : Canvas.Surface) (ctx : Canvas.Context2D) : Prop :=
  Canvas.width (Canvas.bitmap ctx) = Canvas.width image
  /\ Canvas.height (Canvas.bitmap ctx) = Canvas.height image
  /\ forall x y,
       (exists op src backdrop,
           Canvas.pixel (Canvas.bitmap ctx) x y
           = Canvas.composite op src backdrop)
       /\ (Canvas.in_bounds image x y = true ->
           Canvas.alpha (Canvas.pixel image x y) = 255 ->
           Canvas.alpha (Canvas.pixel (Canvas.bitmap ctx) x y) = 255).

(* ===================================================================== *)
(** [appended s s' f]: state [s'] is state [s] with snapshot [f] added right
    after the cursor of [s], as far as the history and the editing controls
    are concerned. *)
Definition appended (s s' : AppState) (f : File) : Prop :=
  history s' = take (Z.to_nat (historyIndex s + 1)) (history s) ++ [f]
  /\ historyIndex s' = historyIndex s + 1
  /\ currentImage s' = Some f
  /\ originalImage s' = originalImage s
  /\ canUndo s' = true /\ canRedo s' = false
  /\ adjustments s' = defaultAdjustments
  /\ crop s' = None /\ completedCrop s' = None.

(** * Properties *)
(* ===================================================================== *)

(** ** History *)

Section SetterProjections.

Variable s : AppState.

Lemma history_addImageToHistory c f :
  history (addImageToHistory c f s)
  = JS.slice (history c) 0 (historyIndex c + 1) ++ [f].
Proof. destruct s; reflexivity. Qed.

Lemma historyIndex_addImageToHistory c f :
  historyIndex (addImageToHistory c f s)
  = Z.of_nat (length (history (addImageToHistory c f s))) - 1.
Proof. destruct s; reflexivity. Qed.

End SetterProjections.

Lemma slice_prefix {A} (l : list A) (k : Z) :
  0 <= k -> JS.slice l 0 k = take (Z.to_nat k) l.
Proof.
  intros Hk. unfold JS.slice, JS.rel_index.
  replace (0 <? 0) with false by reflexivity.
  destruct (k <? 0) eqn:E; [apply Z.ltb_lt in E; lia|].
  rewrite (Z.min_l 0) by lia. cbn [Z.to_nat drop]. rewrite Z.sub_0_r.
  destruct (Z.le_gt_cases k (Z.of_nat (length l))) as [Hle|Hgt].
  - now rewrite Z.min_l by lia.
  - rewrite Z.min_r by lia. rewrite Nat2Z.id.
    rewrite (take_ge l (Z.to_nat k)) by lia.
    now rewrite firstn_all.
Qed.

Lemma index_last {A} (l : list A) (x : A) :
  JS.index (l ++ [x]) (Z.of_nat (length (l ++ [x])) - 1) = Some x.
Proof.
  unfold JS.index. rewrite length_app. cbn [length].
  destruct (_ <? 0) eqn:E; [apply Z.ltb_lt in E; lia|].
  replace (Z.to_nat (Z.of_nat (length l + 1) - 1)) with (length l + 0)%nat by lia.
  rewrite lookup_app_r by lia.
  now replace (length l + 0 - length l)%nat with 0%nat by lia.
Qed.


(** C10: appending a snapshot resets the adjustment vector to the default,
    clears both crop rectangles and extends the history; every other cell
    (prompt, brush, active tab, ...) keeps its value. *)
Theorem C10_append_resets_adjustments_and_crop (c s : AppState) (f : File) :
  let s' := addImageToHistory c f s in
  adjustments s' = defaultAdjustments
  /\ crop s' = None /\ completedCrop s' = None
  /\ history s' = JS.slice (history c) 0 (historyIndex c + 1) ++ [f]
  /\ historyIndex s' = Z.of_nat (length (history s')) - 1
  /\ prompt s' = prompt s
  /\ brushSize s' = brushSize s /\ brushOpacity s' = brushOpacity s
  /\ activeTab s' = activeTab s
  /\ isLoading s' = isLoading s /\ error s' = error s
  /\ editHotspot s' = editHotspot s /\ displayHotspot s' = displayHotspot s
  /\ aspect s' = aspect s /\ isComparing s' = isComparing s
  /\ propImages s' = propImages s /\ propImageUrls s' = propImageUrls s
  /\ isDraggingProp s' = isDraggingProp s /\ isPainting s' = isPainting s
  /\ showBrushCursor s' = showBrushCursor s
  /\ brushPosition s' = brushPosition s.
Proof. destruct s; cbn. repeat split. Qed.

(** ** Requests to the generation service *)

(** C5: when a request for a localized edit, a filter or a tonal adjustment
    fails, the handler catches the failure, stores its message in the error
    cell, clears the busy flag and leaves the history and the cursor as they
    are; dismissing the error touches neither. *)
Theorem C5_failed_request_leaves_history (c s : AppState) (e : JS.thrown)
    (now : Z) :
  (forall settle,
      settle = handleGenerate_settle \/ settle = handleApplyFilter_settle
      \/ settle = handleApplyAdjustment_settle ->
      let s' := settle c (Rejected e) now s in
      history s' = history s /\ historyIndex s' = historyIndex s
      /\ error s' = Some (error_message e) /\ isLoading s' = false
      /\ error (dismissError s') = None
      /\ history (dismissError s') = history s
      /\ historyIndex (dismissError s') = historyIndex s)
  /\ (forall m, error_message (JS.ErrorObj m) = m)
  /\ (forall handler,
        handler = handleGenerate \/ handler = handleApplyFilter
        \/ handler = handleApplyAdjustment ->
        history (handler (Rejected e) now s) = history s
        /\ historyIndex (handler (Rejected e) now s) = historyIndex s).
Proof.
  split; [|split].
  - intros settle [-> | [-> | ->]]; destruct s; cbn; repeat split.
  - reflexivity.
  - intros handler [-> | [-> | ->]];
      unfold handleGenerate, handleGenerate_begin, handleApplyFilter,
        handleApplyFilter_begin, handleApplyAdjustment,
        handleApplyAdjustment_begin, handleApply_begin;
      destruct (currentImage s); try (split; reflexivity);
      try (destruct (JS.trim_is_empty (prompt s)); [split; reflexivity|];
           destruct (editHotspot s); [|split; reflexivity]);
      destruct s; cbn; split; reflexivity.
Qed.

(** ** Prop images *)

(** C4, as stated, fails: after a rejected localized-edit request the prop
    image is still attached. *)
Lemma C4_props_survive_failed_request :
  is_Some (handleGenerate_begin pending_edit_state)
  /\ propImages pending_edit_state = [mkFile [1] "prop.png" "image/png"]
  /\ propImages (handleGenerate (Rejected (JS.ErrorObj "offline")) 0
                   pending_edit_state)
     = [mkFile [1] "prop.png" "image/png"]
  /\ propImages (handleGenerate (Rejected (JS.ErrorObj "offline")) 0
                   pending_edit_state) <> [].
Proof.
  split; [cbn; eauto|]. split; [reflexivity|]. split; [reflexivity|].
  cbn. discriminate.
Qed.

(** C4, amended: the prop images are cleared when the localized-edit
    request succeeds and whenever a base image is loaded or unloaded; when
    the request fails they stay as they are. *)
Theorem C4_props_cleared_on_success_and_upload (c s : AppState) (r : response)
    (now : Z) (file : File) :
  (let s' := handleGenerate_settle c r now s in
   match received_file r "edited" now with
   | inr _ => propImages s' = [] /\ propImageUrls s' = []
   | inl _ => propImages s' = propImages s
              /\ propImageUrls s' = propImageUrls s
   end)
  /\ propImages (handleImageUpload file s) = []
  /\ propImageUrls (handleImageUpload file s) = []
  /\ propImages (handleUploadNew s) = []
  /\ propImageUrls (handleUploadNew s) = [].
Proof.
  split.
  - cbv zeta. unfold handleGenerate_settle.
    destruct (received_file r "edited" now); destruct s; cbn; split; reflexivity.
  - destruct s; cbn; repeat split.
Qed.

(** ** Restore mode *)

Lemma history_wf_addImageToHistory c f s :
  history_wf (addImageToHistory c f s).
Proof.
  right. rewrite historyIndex_addImageToHistory, history_addImageToHistory.
  rewrite length_app. cbn [length]. lia.
Qed.

Lemma history_wf_frame (s s' : AppState) :
  history s' = history s -> historyIndex s' = historyIndex s ->
  history_wf s -> history_wf s'.
Proof. unfold history_wf. intros -> ->. trivial. Qed.

Lemma history_wf_settle prefix c r now s :
  history_wf s -> history_wf (handleApply_settle prefix c r now s).
Proof.
  intros H. unfold handleApply_settle.
  destruct (received_file r prefix now) as [e|f].
  - eapply history_wf_frame; [| |exact H]; destruct s; reflexivity.
  - eapply history_wf_frame;
      [| |apply (history_wf_addImageToHistory c f s)];
      destruct s; reflexivity.
Qed.

Lemma history_wf_append_canvas prefix c url now s :
  history_wf s -> history_wf (append_canvas prefix c url now s).
Proof.
  intros H. unfold append_canvas.
  destruct (dataURLtoFile _ _); [exact H|apply history_wf_addImageToHistory].
Qed.

(** A handler that writes neither [history] nor [historyIndex]. *)
Local Ltac unchanged s IH :=
  eapply history_wf_frame; [| |exact IH]; destruct s; reflexivity.

(** In every state of the component the cursor is -1 on an empty history
    and a valid index otherwise. *)
Lemma reachable_history_wf s : reachable s -> history_wf s.
Proof.
  induction 1 as
    [ | s files _ IH | s _ IH | s _ IH | s _ IH | s _ IH | s tab _ IH _
    | s v _ IH | s _ IH | s container img e _ IH
    | s v _ IH | s v _ IH | s v _ IH | s v _ IH | s v _ IH | s v _ IH
    | s v _ IH | s v _ IH | s v _ IH | s v _ IH | s v _ IH
    | s nf nu _ IH | s i _ IH
    | s s1 _ IH Hb | c s r now _ _ _ _ IH
    | s s1 _ IH Hb | c s r now _ _ _ _ IH
    | s s1 _ IH Hb | c s r now _ _ _ _ IH
    | c s url now _ _ _ _ IH
    | s mounted url now _ IH | s url now _ IH ];
    try (unchanged s IH).
  - (* first render *)
    left. split; reflexivity.
  - (* handleFileSelect *)
    destruct files as [|f fs]; [exact IH|].
    right. destruct s; cbn. lia.
  - (* handleUploadNew *)
    left. destruct s; split; reflexivity.
  - (* handleUndo *)
    unfold handleUndo, canUndo. destruct (0 <? historyIndex s) eqn:E; [|exact IH].
    apply Z.ltb_lt in E. right. destruct IH as [[_ Hi]|Hi]; [lia|].
    destruct s; cbn in *. lia.
  - (* handleRedo *)
    unfold handleRedo, canRedo.
    destruct (historyIndex s <? _) eqn:E; [|exact IH].
    apply Z.ltb_lt in E. right. destruct IH as [[Hh Hi]|Hi].
    + rewrite Hh, Hi in E. cbn in E. lia.
    + destruct s; cbn in *. lia.
  - (* handleReset *)
    unfold handleReset. destruct (0 <? _) eqn:E; [|exact IH].
    apply Z.ltb_lt in E. right. destruct s; cbn in *. lia.
  - (* handleImageClick *)
    unfold handleImageClick. destruct container as [[? ?]|]; [|exact IH].
    destruct (negb _); [exact IH|].
    destruct (outside_image _ _ _); unchanged s IH.
  - (* handlePropImageSelect *)
    destruct nf; [exact IH|]. unchanged s IH.
  - (* handleGenerate, before the await *)
    unfold handleGenerate_begin in Hb.
    destruct (currentImage s); [|discriminate].
    destruct (JS.trim_is_empty _); [discriminate|].
    destruct (editHotspot s); [|discriminate].
    injection Hb as <-. unchanged s IH.
  - (* handleGenerate, after the await *)
    unfold handleGenerate_settle.
    destruct (received_file r "edited" now) as [err|f]; [unchanged s IH|].
    eapply history_wf_frame;
      [| |apply (history_wf_addImageToHistory c f s)];
      destruct s; reflexivity.
  - (* handleApplyFilter, before the await *)
    unfold handleApplyFilter_begin, handleApply_begin in Hb.
    destruct (currentImage s); [|discriminate]. injection Hb as <-.
    unchanged s IH.
  - (* handleApplyFilter, after the await *)
    apply history_wf_settle, IH.
  - (* handleApplyAdjustment, before the await *)
    unfold handleApplyAdjustment_begin, handleApply_begin in Hb.
    destruct (currentImage s); [|discriminate]. injection Hb as <-.
    unchanged s IH.
  - (* handleApplyAdjustment, after the await *)
    apply history_wf_settle, IH.
  - (* handleApplyManualAdjustment, onload *)
    apply history_wf_append_canvas, IH.
  - (* handleApplyCrop *)
    unfold handleApplyCrop. destruct (completedCrop s); [|exact IH].
    destruct mounted; [|exact IH]. apply history_wf_append_canvas, IH.
  - (* handleApplyRestore *)
    unfold handleApplyRestore. destruct url as [u|]; [|unchanged s IH].
    destruct (dataURLtoFile _ _) as [err|f]; [exact IH|].
    eapply history_wf_frame;
      [| |apply (history_wf_addImageToHistory s f s)];
      destruct s; reflexivity.
Qed.

Lemma undone_edit_state_reachable : reachable undone_edit_state.
Proof.
  apply reach_undo.
  pose (s0 := handleFileSelect [mkFile [0] "base.png" "image/png"] initialState).
  assert (R0 : reachable s0) by (apply reach_fileSelect, reach_init).
  assert (Hb : handleApplyFilter_begin s0
               = Some (setError None (setIsLoading true s0))) by reflexivity.
  change (reachable
            (handleApplyFilter_settle s0 (Resolved "data:image/png;base64,QUJD") 7
               (setError None (setIsLoading true s0)))).
  apply reach_filter_settle.
  - exact R0.
  - rewrite Hb. eauto.
  - eapply reach_filter_begin; [exact R0|exact Hb].
Qed.



(** ** Coordinate mapper *)


(** ** Crop *)



(** ** Canvas: compositing, the mask compositor and manual adjustment *)

Module CanvasFacts.

Import Canvas.

(** *** Storing a channel *)

(** Only two facts about the rounding are used below: it respects equality
    of rationals, and it is exact on the 8-bit integers. *)
Lemma quantize_comp (q q' : Q) : (q == q')%Q -> quantize q = quantize q'.
Proof. intros H. unfold quantize. now rewrite H. Qed.

Lemma quantize_exact (n : Z) (q : Q) :
  0 <= n <= 255 -> (q == inject_Z n)%Q -> quantize q = n.
Proof.
  intros Hn Hq. unfold quantize. rewrite Hq.
  assert (F : Qfloor (inject_Z n + (1 # 2)) = n).
  { pose proof (Qfloor_le (inject_Z n + (1 # 2))) as L.
    pose proof (Qlt_floor (inject_Z n + (1 # 2))) as U.
    rewrite inject_Z_plus in U. change (inject_Z 1) with 1%Q in U.
    assert (L' : (Qfloor (inject_Z n + (1 # 2)) < n + 1)%Z).
    { rewrite Zlt_Qlt, inject_Z_plus. change (inject_Z 1) with 1%Q. lra. }
    assert (U' : (n - 1 < Qfloor (inject_Z n + (1 # 2)))%Z).
    { rewrite Zlt_Qlt. replace (n - 1) with (n + (-1)) by lia.
      rewrite inject_Z_plus.
      change (inject_Z (-1)) with (-1)%Q. lra. }
    lia. }
  rewrite F. lia.
Qed.

Lemma store_unit (n : Z) (v : Q) :
  0 <= n <= 255 -> (v == unit_of n)%Q -> store v = n.
Proof.
  intros Hn Hv. unfold store. apply quantize_exact; [exact Hn|].
  rewrite Hv. unfold unit_of. field.
Qed.

(** Clamping does nothing in the unit range. *)
Lemma clamp01_id (q q' : Q) :
  (q == q')%Q -> (0 <= q' <= 1)%Q -> (clamp01 q == q')%Q.
Proof.
  intros E [L U]. unfold clamp01.
  destruct (Qle_bool q 0) eqn:E0.
  - apply Qle_bool_iff in E0. lra.
  - destruct (Qle_bool 1 q) eqn:E1.
    + apply Qle_bool_iff in E1. lra.
    + exact E.
Qed.

Lemma unit_of_range (n : Z) : 0 <= n <= 255 -> (0 <= unit_of n <= 1)%Q.
Proof.
  intros [L U]. unfold unit_of.
  rewrite Zle_Qle in L, U.
  change (inject_Z 0) with 0%Q in L. change (inject_Z 255) with 255%Q in U.
  split.
  - apply Qle_shift_div_l; lra.
  - apply Qle_shift_div_r; lra.
Qed.

Lemma unit_of_0 : (unit_of 0 == 0)%Q.
Proof. reflexivity. Qed.

Lemma unit_of_255 : (unit_of 255 == 1)%Q.
Proof. reflexivity. Qed.

Lemma unit_of_nonzero (n : Z) : n <> 0 -> ~ (unit_of n == 0)%Q.
Proof.
  intros Hn H. unfold unit_of in H. apply Hn.
  assert (E : (inject_Z n == inject_Z 0)%Q).
  { change (inject_Z 0) with 0%Q.
    rewrite <- (Qmult_0_l 255), <- H. field. }
  apply inject_Z_injective, E.
Qed.

(** *** The compositing operators on one pixel *)

Global Instance blend_comp op : Proper (Qeq ==> Qeq ==> Qeq) (blend op).
Proof.
  intros d d' Hd c c' Hc.
  destruct op; cbn [blend]; try exact Hc.
  - rewrite Hd. destruct (Qle_bool d' (1 # 2)); unfold multiply, screen;
      now rewrite Hc, Hd.
  - rewrite Hd, Hc. destruct (Qeq_bool d' 0); [reflexivity|].
    destruct (Qeq_bool c' 1); [reflexivity|]. now rewrite Hc, Hd.
Qed.

Global Instance composite_channel_comp op :
  Proper (Qeq ==> Qeq ==> Qeq ==> Qeq ==> Qeq) (composite_channel op).
Proof.
  intros a a' Ha b b' Hb c c' Hc d d' Hd. unfold composite_channel.
  assert (HFb : (Fb op a == Fb op a')%Q) by (destruct op; cbn; now rewrite Ha).
  now rewrite HFb, (blend_comp op d d' Hd c c' Hc), Ha, Hb, Hc, Hd.
Qed.

(** Source-over on a transparent backdrop returns the colour drawn. *)
Lemma channel_over_transparent (alpha_s c_s c_b : Q) :
  ~ (alpha_s == 0)%Q ->
  (composite_channel source_over alpha_s 0 c_s c_b == c_s)%Q.
Proof.
  intros H. unfold composite_channel. cbn [Fa Fb blend]. field.
  intros E. apply H. lra.
Qed.

Lemma composite_on_transparent (c : Color) (p : RGBA) :
  valid_pixel p ->
  (cr c == unit_of (red p))%Q -> (cg c == unit_of (green p))%Q ->
  (cb c == unit_of (blue p))%Q -> (ca c == unit_of (alpha p))%Q ->
  composite source_over c transparent_black = p.
Proof.
  destruct p as [r g b a]. unfold valid_pixel. cbn [red green blue alpha].
  intros (Hr & Hg & Hb & Ha & Hz) Er Eg Eb Ea.
  unfold composite. cbn [alpha red green blue transparent_black Fa Fb].
  assert (Eo : store (ca c * 1 + unit_of 0 * (1 - ca c)) = a).
  { apply store_unit; [exact Ha|]. rewrite Ea, unit_of_0. ring. }
  rewrite Eo.
  destruct (a =? 0) eqn:Ez.
  - apply Z.eqb_eq in Ez. destruct (Hz Ez) as (-> & -> & ->).
    now rewrite Ez.
  - apply Z.eqb_neq in Ez.
    assert (Hne : ~ (ca c == 0)%Q).
    { rewrite Ea. now apply unit_of_nonzero. }
    f_equal; apply store_unit; try assumption;
      rewrite unit_of_0, channel_over_transparent by exact Hne; assumption.
Qed.

Lemma store_0 (v : Q) : (v == 0)%Q -> store v = 0.
Proof. intros H. apply store_unit; [lia|]. now rewrite H. Qed.

(** Drawing a fully transparent colour with source-over changes nothing. *)
Lemma composite_transparent_source (c : Color) (p : RGBA) :
  valid_pixel p -> (ca c == 0)%Q -> composite source_over c p = p.
Proof.
  destruct p as [r g b a]. unfold valid_pixel. cbn [red green blue alpha].
  intros (Hr & Hg & Hb & Ha & Hz) Ea.
  unfold composite. cbn [alpha red green blue Fa Fb].
  assert (Eo : store (ca c * 1 + unit_of a * (1 - ca c)) = a).
  { apply store_unit; [exact Ha|]. rewrite Ea. ring. }
  rewrite Eo.
  destruct (a =? 0) eqn:Ez.
  - apply Z.eqb_eq in Ez. destruct (Hz Ez) as (-> & -> & ->). now rewrite Ez.
  - apply Z.eqb_neq in Ez. pose proof (unit_of_nonzero a Ez) as Hne.
    assert (Hch : forall c_s c_b,
               (composite_channel source_over (ca c) (unit_of a) c_s c_b == c_b)%Q).
    { intros c_s c_b. rewrite Ea. unfold composite_channel. cbn [Fa Fb blend].
      field. intros E. apply Hne. lra. }
    f_equal; apply store_unit; try assumption; apply Hch.
Qed.

(** Source-over and the blend modes on an opaque backdrop. *)
Lemma composite_on_opaque (op : operator) (c : Color) (p : RGBA) :
  op <> destination_in -> alpha p = 255 ->
  composite op c p
  = mkRGBA
      (store (ca c * blend op (unit_of (red p)) (cr c) + (1 - ca c) * unit_of (red p)))
      (store (ca c * blend op (unit_of (green p)) (cg c) + (1 - ca c) * unit_of (green p)))
      (store (ca c * blend op (unit_of (blue p)) (cb c) + (1 - ca c) * unit_of (blue p)))
      255.
Proof.
  intros Hop Hp. unfold composite. rewrite Hp.
  assert (EFa : Fa op = 1%Q) by (destruct op; [reflexivity|congruence|reflexivity..]).
  assert (EFb : Fb op (ca c) = (1 - ca c)%Q)
    by (destruct op; [reflexivity|congruence|reflexivity..]).
  rewrite EFa, EFb.
  assert (Eo : store (ca c * 1 + unit_of 255 * (1 - ca c)) = 255).
  { apply store_unit; [lia|]. rewrite unit_of_255. ring. }
  rewrite Eo. cbn [Z.eqb].
  assert (Hch : forall c_s c_b,
             (composite_channel op (ca c) (unit_of 255) c_s c_b
              == ca c * blend op c_b c_s + (1 - ca c) * c_b)%Q).
  { intros c_s c_b. unfold composite_channel. rewrite EFa, EFb, unit_of_255.
    field. intros E. ring_simplify in E. discriminate. }
  unfold store. f_equal; apply quantize_comp; now rewrite Hch.
Qed.

(** Destination-in keeps the colour of the backdrop and multiplies its
    alpha by the alpha drawn. *)
Lemma composite_destination_in_opaque (c : Color) (p : RGBA) (m : Z) :
  valid_pixel p -> alpha p = 255 -> 0 <= m <= 255 -> (ca c == unit_of m)%Q ->
  composite destination_in c p
  = if m =? 0 then transparent_black
    else mkRGBA (red p) (green p) (blue p) m.
Proof.
  destruct p as [r g b a]. unfold valid_pixel. cbn [red green blue alpha].
  intros (Hr & Hg & Hb & Ha & Hz) -> Hm Ea.
  unfold composite. cbn [alpha red green blue Fa Fb].
  assert (Eo : store (ca c * 0 + unit_of 255 * ca c) = m).
  { apply store_unit; [exact Hm|]. rewrite Ea, unit_of_255. ring. }
  rewrite Eo. destruct (m =? 0) eqn:Ez; [reflexivity|].
  apply Z.eqb_neq in Ez. pose proof (unit_of_nonzero m Ez) as Hne.
  assert (Hch : forall c_s c_b,
             (composite_channel destination_in (ca c) (unit_of 255) c_s c_b == c_b)%Q).
  { intros c_s c_b. rewrite Ea, unit_of_255. unfold composite_channel.
    cbn [Fa Fb blend]. field. intros E. apply Hne. lra. }
  f_equal; apply store_unit; try assumption; apply Hch.
Qed.

(** Destination-in with a fully transparent source clears the pixel. *)
Lemma composite_destination_in_clear (c : Color) (p : RGBA) :
  (ca c == 0)%Q -> composite destination_in c p = transparent_black.
Proof.
  intros Ea. unfold composite. cbn [Fa Fb].
  rewrite store_0; [reflexivity|]. rewrite Ea. ring.
Qed.

(** *** [redrawComposite], pixel by pixel *)

Lemma in_bounds_same_size (a b : Surface) x y :
  same_size a b -> in_bounds a x y = in_bounds b x y.
Proof. intros [Hw Hh]. unfold in_bounds. now rewrite Hw, Hh. Qed.

Lemma in_rect_canvas (s : Surface) x y :
  in_rect 0 0 (width s) (height s) x y = in_bounds s x y.
Proof. reflexivity. Qed.

Lemma sample_in_bounds (s : Surface) x y :
  in_bounds s x y = true -> sample s x y = pixel s x y.
Proof. intros H. unfold sample. now rewrite H. Qed.

Ltac canvas_simpl :=
  cbn [bitmap filter globalCompositeOperation fillStyle width height pixel
       getContext createCanvas set_globalCompositeOperation set_filter
       set_fillStyle drawImage paint clearRect fillRect apply_filters foldl].

Lemma redrawComposite_pixel rs display mask current previous :
  same_size current display -> same_size previous display ->
  same_size mask display ->
  exists out,
    displayCanvas (redrawComposite rs
      (mkRefs (Some display) (Some mask) (Some current) (Some previous)))
    = Some out
    /\ same_size out display
    /\ forall x y, in_bounds display x y = true ->
         pixel out x y
         = recompose_pixel (pixel current x y) (pixel previous x y)
                           (pixel mask x y).
Proof.
  intros Hc Hp Hm.
  unfold redrawComposite.
  cbn [displayCanvas maskCanvas image_current image_previous].
  unfold drawImage_scaled.
  assert (Ec : (width display =? width current)
               && (height display =? height current) = true).
  { destruct Hc as [-> ->]. now rewrite !Z.eqb_refl. }
  assert (Ep : (width display =? width previous)
               && (height display =? height previous) = true).
  { destruct Hp as [-> ->]. now rewrite !Z.eqb_refl. }
  rewrite Ec, Ep.
  eexists. split; [reflexivity|]. split; [split; reflexivity|].
  intros x y Hb. canvas_simpl. rewrite !Z.sub_0_r.
  rewrite in_rect_canvas, Hb.
  assert (Hs : forall f,
             sample (mkSurface (width display) (height display) f) x y = f x y).
  { intros f. now apply (sample_in_bounds (mkSurface _ _ f)). }
  rewrite Hs, !Z.sub_0_r.
  rewrite !sample_in_bounds; [reflexivity|..].
  - now rewrite (in_bounds_same_size _ _ x y Hc).
  - now rewrite (in_bounds_same_size _ _ x y Hp).
  - now rewrite (in_bounds_same_size _ _ x y Hm).
Qed.

(** Drawing an opaque colour with source-over replaces the pixel. *)
Lemma composite_opaque_source (c : Color) (q p : RGBA) :
  valid_pixel q -> alpha q = 255 ->
  (cr c == unit_of (red q))%Q -> (cg c == unit_of (green q))%Q ->
  (cb c == unit_of (blue q))%Q -> (ca c == 1)%Q ->
  composite source_over c p = q.
Proof.
  destruct q as [r g b a]. unfold valid_pixel. cbn [red green blue alpha].
  intros (Hr & Hg & Hb & Ha & Hz) -> Er Eg Eb Ea.
  unfold composite. cbn [Fa Fb].
  assert (Eo : store (ca c * 1 + unit_of (alpha p) * (1 - ca c)) = 255).
  { apply store_unit; [lia|]. rewrite Ea, unit_of_255. ring. }
  rewrite Eo. cbn [Z.eqb].
  assert (Hch : forall c_s c_b,
             (composite_channel source_over (ca c) (unit_of (alpha p)) c_s c_b
              == c_s)%Q).
  { intros c_s c_b. rewrite Ea. unfold composite_channel. cbn [Fa Fb blend].
    field; intros E; ring_simplify in E; discriminate. }
  f_equal; apply store_unit; try assumption; now rewrite Hch.
Qed.

Lemma to_color_on_transparent (p : RGBA) :
  valid_pixel p -> composite source_over (to_color p) transparent_black = p.
Proof. intros H. now apply composite_on_transparent. Qed.

Lemma lerp_channel_0 (c p : Z) : 0 <= c <= 255 -> lerp_channel c p 0 = c.
Proof.
  intros H. unfold lerp_channel. apply quantize_exact; [exact H|].
  change (inject_Z (255 - 0)) with 255%Q. change (inject_Z 0) with 0%Q. field.
Qed.

Lemma recompose_transparent_mask (current previous mask : RGBA) :
  valid_pixel current -> alpha mask = 0 ->
  recompose_pixel current previous mask = current.
Proof.
  intros Hc Hm. unfold recompose_pixel.
  rewrite (to_color_on_transparent current) by exact Hc.
  rewrite composite_destination_in_clear
    by (cbn [to_color ca]; rewrite Hm; reflexivity).
  apply composite_transparent_source; [exact Hc|reflexivity].
Qed.

Lemma recompose_opaque_mask (current previous mask : RGBA) :
  valid_pixel previous -> alpha previous = 255 -> alpha mask = 255 ->
  recompose_pixel current previous mask = previous.
Proof.
  intros Hp Ho Hm. unfold recompose_pixel.
  rewrite (to_color_on_transparent previous) by exact Hp.
  rewrite (composite_destination_in_opaque _ previous 255)
    by (try assumption; try lia; cbn [to_color ca]; rewrite Hm; reflexivity).
  cbn [Z.eqb].
  apply composite_opaque_source; cbn [red green blue alpha to_color cr cg cb ca];
    try reflexivity; assumption.
Qed.

Lemma recompose_lerp (current previous mask : RGBA) :
  valid_pixel current -> valid_pixel previous -> valid_pixel mask ->
  alpha current = 255 -> alpha previous = 255 ->
  recompose_pixel current previous mask
  = mkRGBA (lerp_channel (red current) (red previous) (alpha mask))
           (lerp_channel (green current) (green previous) (alpha mask))
           (lerp_channel (blue current) (blue previous) (alpha mask))
           255.
Proof.
  intros Hc Hp Hm Oc Op. unfold recompose_pixel.
  rewrite (to_color_on_transparent current) by exact Hc.
  rewrite (to_color_on_transparent previous) by exact Hp.
  assert (Hma : 0 <= alpha mask <= 255) by apply Hm.
  rewrite (composite_destination_in_opaque _ previous (alpha mask))
    by (try assumption; reflexivity).
  destruct (alpha mask =? 0) eqn:Ez.
  - apply Z.eqb_eq in Ez. rewrite Ez.
    rewrite composite_transparent_source by (try assumption; reflexivity).
    destruct Hc as (Hr & Hg & Hb & _).
    rewrite !lerp_channel_0 by assumption.
    destruct current; cbn in *; congruence.
  - rewrite composite_on_opaque by (try discriminate; assumption).
    cbn [to_color cr cg cb ca red green blue alpha blend].
    unfold lerp_channel, store.
    f_equal; apply quantize_comp; unfold unit_of;
      rewrite <- (Z.add_opp_r 255), inject_Z_plus, inject_Z_opp;
      change (inject_Z 255) with 255%Q; field.
Qed.

(** *** Manual adjustment *)

(** A filter function with amount 1 leaves a colour of the unit range as it
    is. *)
Lemma apply_filter_identity (f : filter_function) (c c0 : Color) :
  (amount_of f == 1)%Q -> unit_color c0 -> color_eq c c0 ->
  color_eq (apply_filter f c) c0.
Proof.
  intros Hk (Ur & Ug & Ub) (Er & Eg & Eb & Ea).
  destruct f as [k|k|k]; cbn [amount_of] in Hk;
    cbn [apply_filter]; unfold color_eq; cbn [cr cg cb ca];
    (repeat split;
       [apply clamp01_id; [rewrite ?Hk, ?Er, ?Eg, ?Eb; ring|assumption]..
       |exact Ea]).
Qed.

Lemma apply_filters_identity (fs : list filter_function) (c c0 : Color) :
  Forall (fun f => (amount_of f == 1)%Q) fs -> unit_color c0 -> color_eq c c0 ->
  color_eq (apply_filters fs c) c0.
Proof.
  intros Hfs U. revert c. unfold apply_filters.
  induction Hfs as [|f fs Hf _ IH]; intros c E; cbn [foldl]; [exact E|].
  apply IH. now apply apply_filter_identity.
Qed.

Lemma unit_color_to_color (p : RGBA) : valid_pixel p -> unit_color (to_color p).
Proof.
  intros (Hr & Hg & Hb & _). unfold unit_color. cbn [to_color cr cg cb].
  repeat split; now apply unit_of_range.
Qed.

Lemma manual_filters_default :
  exists fs, manual_filters defaultAdjustments = Some fs
             /\ Forall (fun f => (amount_of f == 1)%Q) fs.
Proof.
  eexists. split; [vm_compute; reflexivity|].
  repeat constructor.
Qed.

(** With temperature and tint at zero only the filtered [drawImage] runs. *)
Lemma manualAdjustCanvas_untinted (adj : ManualAdjustments) (image : Surface) :
  PrimFloat.ltb 0 (temperature adj) = false ->
  PrimFloat.ltb (temperature adj) 0 = false ->
  PrimFloat.ltb 0 (tint adj) = false ->
  PrimFloat.ltb (tint adj) 0 = false ->
  forall fs, manual_filters adj = Some fs ->
  manualAdjustCanvas adj image
  = mkSurface (width image) (height image)
      (fun x y => composite source_over
                    (apply_filters fs (to_color (sample image (x - 0) (y - 0))))
                    transparent_black).
Proof.
  intros H1 H2 H3 H4 fs Hfs. unfold manualAdjustCanvas.
  rewrite H1, H2, H3, H4, Hfs. reflexivity.
Qed.

Lemma zero_adjustment_identical (image : Surface) :
  valid_surface image ->
  pixel_identical (manualAdjustCanvas defaultAdjustments image) image.
Proof.
  intros Hv. destruct manual_filters_default as (fs & Hfs & Hone).
  rewrite (manualAdjustCanvas_untinted defaultAdjustments image
             eq_refl eq_refl eq_refl eq_refl fs Hfs).
  split; [split; reflexivity|].
  intros x y Hb. cbn [pixel]. rewrite !Z.sub_0_r.
  change (in_bounds image x y = true) in Hb.
  rewrite sample_in_bounds by exact Hb.
  specialize (Hv x y Hb).
  destruct (apply_filters_identity fs (to_color (pixel image x y))
              (to_color (pixel image x y)) Hone (unit_color_to_color _ Hv))
    as (Er & Eg & Eb & Ea).
  { repeat split; reflexivity. }
  now apply composite_on_transparent.
Qed.

Lemma pixel_identical_valid (a b : Surface) :
  pixel_identical a b -> valid_surface b -> valid_surface a.
Proof.
  intros [Hs Hp] Hv x y Hb. rewrite Hp by exact Hb. apply Hv.
  now rewrite <- (in_bounds_same_size a b x y Hs).
Qed.

Lemma pixel_identical_trans (a b c : Surface) :
  pixel_identical a b -> pixel_identical b c -> pixel_identical a c.
Proof.
  intros [[Hw Hh] Hp] [[Hw' Hh'] Hp']. split; [split; congruence|].
  intros x y Hb. rewrite Hp by exact Hb. apply Hp'.
  now rewrite <- (in_bounds_same_size a b x y (conj Hw Hh)).
Qed.

Lemma pixel_identical_sym (a b : Surface) :
  pixel_identical a b -> pixel_identical b a.
Proof.
  intros [[Hw Hh] Hp]. split; [split; congruence|].
  intros x y Hb. symmetry. apply Hp.
  now rewrite (in_bounds_same_size a b x y (conj Hw Hh)).
Qed.


Lemma unit_of_scale (n : Z) : (255 * unit_of n == inject_Z n)%Q.
Proof. unfold unit_of. field. Qed.

Lemma unit_of_le_half (n : Z) : Qle_bool (unit_of n) (1 # 2) = (n <=? 127).
Proof.
  pose proof (unit_of_scale n) as Hs.
  destruct (n <=? 127) eqn:E.
  - apply Z.leb_le in E. apply Qle_bool_iff.
    rewrite Zle_Qle in E. change (inject_Z 127) with 127%Q in E. lra.
  - apply Z.leb_gt in E. apply not_true_is_false. intros H.
    apply Qle_bool_iff in H.
    assert (E' : (128 <= n)%Z) by lia.
    rewrite Zle_Qle in E'. change (inject_Z 128) with 128%Q in E'. lra.
Qed.

(** The overlay blend of the compositing model is the formula of the
    specification on 8-bit channels. *)
Lemma overlay_matches_spec (base tint_channel : Z) (c_s : Q) :
  (c_s == unit_of tint_channel)%Q ->
  (255 * blend overlay (unit_of base) c_s == spec_overlay base tint_channel)%Q.
Proof.
  intros Hc. cbn [blend]. unfold spec_overlay. rewrite unit_of_le_half.
  destruct (base <=? 127); unfold multiply, screen; rewrite Hc; unfold unit_of.
  - field.
  - rewrite <- !(Z.add_opp_r 255), !inject_Z_plus, !inject_Z_opp.
    change (inject_Z 255) with 255%Q. field.
Qed.

Lemma tinted_channel (a : Q) (c : Color) (c_s : Q) (base tint_channel : Z) :
  (ca c == a)%Q -> (c_s == unit_of tint_channel)%Q ->
  store (ca c * blend overlay (unit_of base) c_s + (1 - ca c) * unit_of base)
  = spec_tinted a base tint_channel.
Proof.
  intros Ha Hc. unfold store, spec_tinted. apply quantize_comp.
  rewrite <- (overlay_matches_spec base tint_channel c_s Hc).
  rewrite <- (unit_of_scale base), Ha. ring.
Qed.

Lemma manual_filters_neutral (adj : ManualAdjustments) :
  exposure adj = 0%float -> contrast adj = 0%float -> saturation adj = 0%float ->
  manual_filters adj = manual_filters defaultAdjustments.
Proof. intros He Hc Hs. unfold manual_filters. now rewrite He, Hc, Hs. Qed.

Lemma tinted_pixel (fs : list filter_function) (p : RGBA) (a : Q)
    (tr tg tb : Z) :
  Forall (fun f => (amount_of f == 1)%Q) fs ->
  valid_pixel p -> alpha p = 255 ->
  0 <= tr <= 255 -> 0 <= tg <= 255 -> 0 <= tb <= 255 ->
  composite overlay
    (apply_filters fs (mkColor (unit_of tr) (unit_of tg) (unit_of tb) a))
    (composite source_over (apply_filters fs (to_color p)) transparent_black)
  = mkRGBA (spec_tinted a (red p) tr) (spec_tinted a (green p) tg)
           (spec_tinted a (blue p) tb) 255.
Proof.
  intros Hfs Hv Ho Hr Hg Hb.
  destruct (apply_filters_identity fs (to_color p) (to_color p) Hfs
              (unit_color_to_color _ Hv)) as (Er & Eg & Eb & Ea).
  { repeat split; reflexivity. }
  rewrite (composite_on_transparent _ p Hv Er Eg Eb Ea).
  destruct (apply_filters_identity fs
              (mkColor (unit_of tr) (unit_of tg) (unit_of tb) a)
              (mkColor (unit_of tr) (unit_of tg) (unit_of tb) a) Hfs)
    as (Fr & Fg & Fb & Fa).
  { unfold unit_color. cbn [cr cg cb]. repeat split; now apply unit_of_range. }
  { repeat split; reflexivity. }
  cbn [cr cg cb ca] in Fr, Fg, Fb, Fa.
  rewrite composite_on_opaque by (try discriminate; exact Ho).
  f_equal; now apply tinted_channel.
Qed.

(** With exposure, contrast and saturation at zero (and no tint), the
    temperature step is the overlay of the specification: orange
    (255,165,0) for a positive temperature t, blue (0,100,255) for a
    negative one, at the alpha that [t / 200] (resp. [-t / 200]) denotes. *)
Lemma temperature_overlay_with_neutral_tone (adj : ManualAdjustments)
    (image : Surface) (a : Q) (tr tg tb : Z) :
  exposure adj = 0%float -> contrast adj = 0%float -> saturation adj = 0%float ->
  PrimFloat.ltb 0 (tint adj) = false -> PrimFloat.ltb (tint adj) 0 = false ->
  (PrimFloat.ltb 0 (temperature adj) = true
   /\ Number.exact (temperature adj / 200) = Some a
   /\ (tr, tg, tb) = (255, 165, 0))
  \/ (PrimFloat.ltb 0 (temperature adj) = false
      /\ PrimFloat.ltb (temperature adj) 0 = true
      /\ Number.exact (- temperature adj / 200) = Some a
      /\ (tr, tg, tb) = (0, 100, 255)) ->
  valid_surface image -> opaque_surface image ->
  forall x y, in_bounds image x y = true ->
    let p := pixel image x y in
    pixel (manualAdjustCanvas adj image) x y
    = mkRGBA (spec_tinted (clamp01 a) (red p) tr)
             (spec_tinted (clamp01 a) (green p) tg)
             (spec_tinted (clamp01 a) (blue p) tb) 255.
Proof.
  intros He Hc Hs Hti1 Hti2 Ht Hv Ho x y Hb p.
  destruct manual_filters_default as (fs & Hfs & Hone).
  rewrite <- (manual_filters_neutral adj He Hc Hs) in Hfs.
  unfold manualAdjustCanvas. rewrite Hfs, Hti1, Hti2.
  destruct Ht as [(Hpos & Hex & Hcol)|(Hpos & Hneg & Hex & Hcol)];
    injection Hcol as -> -> ->.
  - rewrite Hpos. unfold css_rgba. rewrite Hex. canvas_simpl.
    rewrite !Z.sub_0_r, in_rect_canvas.
    change (in_bounds (mkSurface (width image) (height image) _) x y)
      with (in_bounds image x y).
    rewrite Hb, (sample_in_bounds image x y Hb).
    apply tinted_pixel; try lia; [exact Hone|apply Hv, Hb|apply Ho, Hb].
  - rewrite Hpos, Hneg. unfold css_rgba. rewrite Hex. canvas_simpl.
    rewrite !Z.sub_0_r, in_rect_canvas.
    change (in_bounds (mkSurface (width image) (height image) _) x y)
      with (in_bounds image x y).
    rewrite Hb, (sample_in_bounds image x y Hb).
    apply tinted_pixel; try lia; [exact Hone|apply Hv, Hb|apply Ho, Hb].
Qed.

(** A restore session starts with canvases of the size of the current
    image, a transparent mask and the current image on display. *)
Lemma restoreSessionStart_refs rs current previous :
  valid_surface current ->
  exists display mask,
    restoreSessionStart rs current previous
    = mkRefs (Some display) (Some mask) (Some current) (Some previous)
    /\ same_size current display /\ same_size mask display
    /\ valid_surface mask /\ mask_alpha_everywhere mask 0
    /\ pixel_identical display current.
Proof.
  intros Hv. unfold restoreSessionStart, drawImage_scaled.
  rewrite !Z.eqb_refl. cbn [andb].
  eexists. eexists. split; [reflexivity|].
  split; [split; reflexivity|]. split; [split; reflexivity|].
  split; [|split].
  - intros x y Hb. canvas_simpl. rewrite in_rect_canvas.
    destruct (in_bounds current x y);
      unfold valid_pixel; cbn; lia.
  - intros x y Hb. canvas_simpl. now destruct (in_rect _ _ _ _ _ _).
  - split; [split; reflexivity|]. intros x y Hb. canvas_simpl.
    rewrite !Z.sub_0_r.
    change (in_bounds current x y = true) in Hb.
    rewrite sample_in_bounds by exact Hb.
    apply to_color_on_transparent, Hv, Hb.
Qed.




(** C8: on every decoded bitmap the manual adjustment pipeline with the
    all-zero vector gives a pixel-identical image, and applying it any
    number of times gives the same image as applying it once. *)
Theorem C8_zero_adjustment_is_identity (image : Surface) :
  valid_surface image ->
  pixel_identical (manualAdjustCanvas defaultAdjustments image) image
  /\ forall n,
       pixel_identical
         (Nat.iter (S n) (manualAdjustCanvas defaultAdjustments) image)
         (manualAdjustCanvas defaultAdjustments image).
Proof.
  intros Hv. pose proof (zero_adjustment_identical image Hv) as H1.
  split; [exact H1|].
  assert (Hn : forall n,
             pixel_identical
               (Nat.iter n (manualAdjustCanvas defaultAdjustments) image) image
             /\ valid_surface
                  (Nat.iter n (manualAdjustCanvas defaultAdjustments) image)).
  { induction n as [|n [IHp IHv]]; cbn [Nat.iter].
    - split; [|exact Hv]. split; [split; reflexivity|reflexivity].
    - pose proof (zero_adjustment_identical _ IHv) as Hstep.
      assert (Hid := pixel_identical_trans _ _ _ Hstep IHp).
      split; [exact Hid|]. exact (pixel_identical_valid _ _ Hid Hv). }
  intros n. eapply pixel_identical_trans; [apply (Hn (S n))|].
  now apply pixel_identical_sym.
Qed.

(** The zero vector on a 2x2 flat image. *)
Lemma C8_zero_adjustment_on_flat_image :
  valid_surface (flat 2 2 (mkRGBA 10 20 30 255))
  /\ pixel_identical
       (manualAdjustCanvas defaultAdjustments (flat 2 2 (mkRGBA 10 20 30 255)))
       (flat 2 2 (mkRGBA 10 20 30 255)).
Proof.
  assert (Hv : valid_surface (flat 2 2 (mkRGBA 10 20 30 255))).
  { intros x y _. cbn. unfold valid_pixel. cbn. lia. }
  split; [exact Hv|].
  exact (proj1 (C8_zero_adjustment_is_identity _ Hv)).
Defined.

(** C9 at saturation -100 and temperature 100 on an opaque gray 128 pixel:
    the saturation step leaves the gray at 128, and the specified overlay of
    orange (255,165,0) at alpha 1/2 gives (192,147,65), but the canvas still
    has the tone filter set when the tint rectangle is filled, so the orange
    is desaturated first and the stored pixel is (150,150,150).  With the
    tone sliders at zero the stored pixel is the specified one. *)
Theorem C9_tint_fill_goes_through_tone_filter :
  let image := flat 1 1 (mkRGBA 128 128 128 255) in
  let warm := mkAdjustments 100 0 0 0 0 0 0 0 0 0 0 in
  let gray_only := mkAdjustments 0 0 0 0 0 0 0 0 0 0 (-100) in
  let warm_gray := mkAdjustments 100 0 0 0 0 0 0 0 0 0 (-100) in
  pixel (manualAdjustCanvas gray_only image) 0 0 = mkRGBA 128 128 128 255
  /\ mkRGBA (spec_tinted (1 # 2) 128 255) (spec_tinted (1 # 2) 128 165)
            (spec_tinted (1 # 2) 128 0) 255
     = mkRGBA 192 147 65 255
  /\ pixel (manualAdjustCanvas warm_gray image) 0 0 = mkRGBA 150 150 150 255
  /\ pixel (manualAdjustCanvas warm image) 0 0 = mkRGBA 192 147 65 255
  /\ (spec_overlay 128 255 == 255)%Q /\ (spec_overlay 128 165 == 2811 # 17)%Q
  /\ (spec_overlay 128 0 == 1)%Q.
Proof.
  cbv zeta. repeat split; vm_compute; reflexivity.
Qed.

End CanvasFacts.

(** ** Concrete instances *)




(* ===================================================================== *)
(** * Further properties of the handlers and components *)
(* ===================================================================== *)

(** ** History navigation *)

Lemma index_in_range {A} (l : list A) (i : Z) :
  0 <= i < Z.of_nat (length l) -> is_Some (JS.index l i).
Proof.
  intros H. unfold JS.index. destruct (i <? 0) eqn:E; [apply Z.ltb_lt in E; lia|].
  apply lookup_lt_is_Some. lia.
Qed.

Lemma index_app_l {A} (l k : list A) (i : Z) :
  i < Z.of_nat (length l) -> JS.index (l ++ k) i = JS.index l i.
Proof.
  intros H. unfold JS.index. destruct (i <? 0) eqn:E; [reflexivity|].
  apply Z.ltb_ge in E. apply lookup_app_l. lia.
Qed.

Lemma index_take {A} (l : list A) (n : nat) (i : Z) :
  i < Z.of_nat n -> JS.index (take n l) i = JS.index l i.
Proof.
  intros H. unfold JS.index. destruct (i <? 0) eqn:E; [reflexivity|].
  apply Z.ltb_ge in E. apply lookup_take_lt. lia.
Qed.

(** X1: Undo and redo are inverse to each other wherever the first one is
    available: the whole state comes back, not only the cursor. *)
Theorem undo_redo_inverse (s : AppState) :
  history_wf s ->
  (canUndo s = true -> handleRedo (handleUndo s) = s)
  /\ (canRedo s = true -> handleUndo (handleRedo s) = s).
Proof.
  intros W. destruct s as [h i p l e eh dh t c cc a ic pi pu dp bs bo ip sc bp adj].
  unfold history_wf in W. cbn [history historyIndex] in W.
  unfold handleRedo, handleUndo, canUndo, canRedo. cbn [history historyIndex].
  split; intros H.
  - rewrite H. cbn [setHistoryIndex history historyIndex].
    apply Z.ltb_lt in H.
    destruct (i - 1 <? Z.of_nat (length h) - 1) eqn:E.
    + cbn [setHistoryIndex]. f_equal. lia.
    + apply Z.ltb_ge in E. destruct W as [[_ ?]|?]; lia.
  - rewrite H. cbn [setHistoryIndex history historyIndex].
    apply Z.ltb_lt in H.
    destruct (0 <? i + 1) eqn:E.
    + cbn [setHistoryIndex]. f_equal. lia.
    + apply Z.ltb_ge in E. destruct W as [[-> ->]|?]; [cbn in H|]; lia.
Qed.

Lemma current_defined (s : AppState) :
  history_wf s -> history s <> [] -> is_Some (currentImage s).
Proof.
  intros [[H _]|H] Hne; [contradiction|]. now apply index_in_range.
Qed.

Lemma navigation_wf (s : AppState) :
  history_wf s ->
  (history (handleUndo s) = history s /\ history_wf (handleUndo s))
  /\ (history (handleRedo s) = history s /\ history_wf (handleRedo s))
  /\ (history (handleReset s) = history s /\ history_wf (handleReset s)).
Proof.
  intros W. destruct s as [h i p l e eh dh t c cc a ic pi pu dp bs bo ip sc bp adj].
  unfold history_wf in *. unfold handleUndo, handleRedo, handleReset, canUndo, canRedo.
  cbn [history historyIndex] in *.
  repeat split.
  - destruct (0 <? i); reflexivity.
  - destruct (0 <? i) eqn:E; cbn [setHistoryIndex history historyIndex]; [|exact W].
    apply Z.ltb_lt in E. right. destruct W as [[_ ?]|?]; lia.
  - destruct (i <? _); reflexivity.
  - destruct (i <? _) eqn:E; cbn [setHistoryIndex history historyIndex]; [|exact W].
    apply Z.ltb_lt in E. right. destruct W as [[-> ->]|?]; [cbn in E|]; lia.
  - destruct (0 <? _); reflexivity.
  - destruct (0 <? _) eqn:E; cbn [setHistoryIndex history historyIndex]; [|exact W].
    apply Z.ltb_lt in E. right. lia.
Qed.

(** X2: Undo, redo and reset only move the cursor: the snapshot sequence is
    kept, the cursor stays a valid index, so a current image remains
    defined; at the ends of the history undo and redo do nothing. *)
Theorem navigation_keeps_snapshots (s : AppState) :
  history_wf s ->
  (forall nav, nav = handleUndo \/ nav = handleRedo \/ nav = handleReset ->
     history (nav s) = history s /\ history_wf (nav s)
     /\ originalImage (nav s) = originalImage s
     /\ (history s <> [] -> is_Some (currentImage (nav s))))
  /\ (canUndo s = false -> handleUndo s = s)
  /\ (canRedo s = false -> handleRedo s = s)
  /\ (history s = [] -> handleReset s = s).
Proof.
  intros W. destruct (navigation_wf s W) as ((U1 & U2) & (R1 & R2) & (T1 & T2)).
  split; [|split; [|split]].
  - intros nav [-> | [-> | ->]].
    + split; [exact U1|]. split; [exact U2|]. split.
      * unfold originalImage. now rewrite U1.
      * intros Hne. apply current_defined; [exact U2|now rewrite U1].
    + split; [exact R1|]. split; [exact R2|]. split.
      * unfold originalImage. now rewrite R1.
      * intros Hne. apply current_defined; [exact R2|now rewrite R1].
    + split; [exact T1|]. split; [exact T2|]. split.
      * unfold originalImage. now rewrite T1.
      * intros Hne. apply current_defined; [exact T2|now rewrite T1].
  - intros H. unfold handleUndo. now rewrite H.
  - intros H. unfold handleRedo. now rewrite H.
  - intros H. unfold handleReset. now rewrite H.
Qed.

(** X3: In every state of the component the cursor is -1 on an empty history
    and a valid index otherwise; the current and the original image are
    missing exactly when no image is loaded, and undo or redo is available
    only with at least two snapshots. *)
Theorem reachable_cursor_invariant (s : AppState) :
  reachable s ->
  history_wf s
  /\ (currentImage s = None <-> history s = [])
  /\ (originalImage s = None <-> history s = [])
  /\ (canUndo s = true \/ canRedo s = true -> 2 <= Z.of_nat (length (history s))).
Proof.
  intros R. pose proof (reachable_history_wf s R) as W.
  split; [exact W|]. split; [|split].
  - split.
    + intros Hc. destruct (history s) eqn:Hh; [reflexivity|].
      destruct (current_defined s W) as [img Himg]; [now rewrite Hh|congruence].
    + intros Hh. unfold currentImage. rewrite Hh. unfold JS.index.
      destruct (_ <? 0); [reflexivity|]. apply lookup_nil.
  - unfold originalImage, JS.index.
    destruct (history s); cbn; split; intros H; try reflexivity; discriminate.
  - unfold canUndo, canRedo. intros [H|H]; apply Z.ltb_lt in H;
      destruct W as [[Hh Hi]|W]; try rewrite Hh in *; cbn in *; lia.
Qed.

(** What [addImageToHistory] does to a well-formed history. *)
Lemma addImageToHistory_facts (s : AppState) (f : File) :
  history_wf s ->
  let s' := addImageToHistory s f s in
  history_wf s'
  /\ Z.of_nat (length (history s')) = historyIndex s + 2
  /\ currentImage s' = Some f
  /\ canRedo s' = false
  /\ (history s = [] -> history s' = [f] /\ canUndo s' = false)
  /\ (history s <> [] ->
      canUndo s' = true
      /\ originalImage s' = originalImage s
      /\ currentImage (handleUndo s') = currentImage s).
Proof.
  intros W. cbv zeta.
  assert (Hi : -1 <= historyIndex s < Z.of_nat (length (history s))
               /\ (history s = [] -> historyIndex s = -1)
               /\ (history s <> [] -> 0 <= historyIndex s)).
  { destruct W as [[Hh Hi]|Hi].
    - rewrite Hh, Hi. cbn. repeat split; try lia. congruence.
    - repeat split; try lia. intros Hh. rewrite Hh in Hi. cbn in Hi. lia. }
  destruct Hi as (Hr & He & Hn).
  assert (Hh : history (addImageToHistory s f s)
               = take (Z.to_nat (historyIndex s + 1)) (history s) ++ [f]).
  { rewrite history_addImageToHistory, slice_prefix by lia. reflexivity. }
  assert (Hlen : Z.of_nat (length (history (addImageToHistory s f s)))
                 = historyIndex s + 2).
  { rewrite Hh, length_app, length_take. cbn [length]. lia. }
  assert (Hidx : historyIndex (addImageToHistory s f s) = historyIndex s + 1).
  { rewrite historyIndex_addImageToHistory, Hlen. lia. }
  split; [apply history_wf_addImageToHistory|].
  split; [exact Hlen|]. split.
  { unfold currentImage. rewrite historyIndex_addImageToHistory.
    rewrite history_addImageToHistory. apply index_last. }
  split.
  { unfold canRedo. rewrite Hidx, Hlen. apply Z.ltb_ge. lia. }
  split.
  - intros Hnil. split.
    + rewrite Hh, Hnil. now rewrite take_nil.
    + unfold canUndo. rewrite Hidx, (He Hnil). reflexivity.
  - intros Hne. specialize (Hn Hne).
    assert (Hu : canUndo (addImageToHistory s f s) = true).
    { unfold canUndo. rewrite Hidx. apply Z.ltb_lt. lia. }
    split; [exact Hu|]. split.
    + unfold originalImage. rewrite Hh.
      rewrite index_app_l by (rewrite length_take; lia).
      apply index_take. lia.
    + unfold handleUndo. rewrite Hu. unfold currentImage.
      assert (E1 : history (setHistoryIndex
                     (historyIndex (addImageToHistory s f s) - 1)
                     (addImageToHistory s f s))
                   = history (addImageToHistory s f s))
        by (destruct (addImageToHistory s f s); reflexivity).
      assert (E2 : historyIndex (setHistoryIndex
                     (historyIndex (addImageToHistory s f s) - 1)
                     (addImageToHistory s f s))
                   = historyIndex (addImageToHistory s f s) - 1)
        by (destruct (addImageToHistory s f s); reflexivity).
      rewrite E1, E2, Hidx, Hh.
      replace (historyIndex s + 1 - 1) with (historyIndex s) by lia.
      rewrite index_app_l by (rewrite length_take; lia).
      apply index_take. lia.
Qed.


(** X5: Reset shows the original image and keeps every later snapshot, so redo
    is available afterwards exactly when the history holds an edit; undo and
    the restore tab are not. *)
Theorem reset_returns_to_original (s : AppState) :
  history_wf s ->
  let s' := handleReset s in
  history s' = history s
  /\ currentImage s' = originalImage s
  /\ canUndo s' = false
  /\ tab_disabled s' restore = true
  /\ (canRedo s' = true <-> 2 <= Z.of_nat (length (history s))).
Proof.
  intros W. cbv zeta.
  destruct s as [h i p l e eh dh t c cc a ic pi pu dp bs bo ip sc bp adj].
  unfold history_wf in W. cbn [history historyIndex] in W.
  unfold handleReset, tab_disabled, canUndo, canRedo, currentImage, originalImage.
  cbn [history historyIndex Tab_eqb andb].
  destruct (0 <? Z.of_nat (length h)) eqn:E;
    cbn [setHistoryIndex history historyIndex].
  - apply Z.ltb_lt in E. repeat split; try reflexivity.
    + intros H. apply Z.ltb_lt in H. lia.
    + intros H. apply Z.ltb_lt. lia.
  - apply Z.ltb_ge in E. destruct W as [[-> ->]|W]; [|lia].
    cbn. repeat split; try reflexivity; try discriminate. lia.
Qed.

(** ** Handlers: guards, failures and loading *)

(** X6: Without a current image the three service handlers return without
    touching the state and the manual adjustment is not started; the
    localized edit also needs a non-blank prompt and a hotspot, and the crop
    a completed rectangle and a mounted image. *)
Theorem handlers_decline_without_preconditions (s : AppState) (r : response)
    (now : Z) :
  (currentImage s = None ->
     handleGenerate r now s = s /\ handleApplyFilter r now s = s
     /\ handleApplyAdjustment r now s = s
     /\ handleApplyManualAdjustment_guard s = false)
  /\ (JS.trim_is_empty (prompt s) = true \/ editHotspot s = None ->
      handleGenerate r now s = s)
  /\ (forall mounted url,
        completedCrop s = None \/ mounted = false ->
        handleApplyCrop mounted url now s = s).
Proof.
  split; [|split].
  - intros H. unfold handleGenerate, handleGenerate_begin, handleApplyFilter,
      handleApplyFilter_begin, handleApplyAdjustment, handleApplyAdjustment_begin,
      handleApply_begin, handleApplyManualAdjustment_guard.
    rewrite H. repeat split.
  - intros H. unfold handleGenerate, handleGenerate_begin.
    destruct (currentImage s); [|reflexivity].
    destruct H as [-> | ->]; [reflexivity|].
    now destruct (JS.trim_is_empty _).
  - intros mounted url [H | ->]; unfold handleApplyCrop.
    + now rewrite H.
    + now destruct (completedCrop s).
Qed.

(** X7: From an idle state without error, a rejected request followed by the
    dismissal of the error panel gives back the state before the request:
    prompt, hotspot and prop images are still there for a retry. *)
Theorem failed_request_then_dismiss_restores_state (s : AppState)
    (e : JS.thrown) (now : Z) :
  isLoading s = false -> error s = None ->
  dismissError (handleGenerate (Rejected e) now s) = s
  /\ dismissError (handleApplyFilter (Rejected e) now s) = s
  /\ dismissError (handleApplyAdjustment (Rejected e) now s) = s.
Proof.
  intros Hl He.
  destruct s as [h i p l er eh dh t c cc a ic pi pu dp bs bo ip sc bp adj].
  cbn in Hl, He. subst l er.
  unfold handleGenerate, handleGenerate_begin, handleApplyFilter,
    handleApplyFilter_begin, handleApplyAdjustment, handleApplyAdjustment_begin,
    handleApply_begin, currentImage.
  cbn [history historyIndex prompt editHotspot].
  repeat split.
  - destruct (JS.index h i); [|reflexivity].
    destruct (JS.trim_is_empty p); [reflexivity|].
    destruct eh; reflexivity.
  - destruct (JS.index h i); reflexivity.
  - destruct (JS.index h i); reflexivity.
Qed.

Lemma dataURLtoFile_error_any_name url name name' err :
  dataURLtoFile url name = inl err -> dataURLtoFile url name' = inl err.
Proof.
  unfold dataURLtoFile.
  destruct (split_comma url) as [|a0 [|a1 rest]]; try (intros H; exact H).
  destruct (match_mime a0) as [[|c m]|]; try (intros H; exact H).
  destruct (Base64.atob a1); [intros H; exact H|discriminate].
Qed.

(** X8: An answer that [dataURLtoFile] cannot decode is handled as a failure:
    the service handlers show the message of the decoder and keep the
    history, the hotspot and the prop images; the canvas handlers leave the
    state as it is. *)
Theorem malformed_data_url_is_a_failure (c s : AppState) (url name : string)
    (err : JS.thrown) (now : Z) :
  dataURLtoFile url name = inl err ->
  (forall settle,
      settle = handleGenerate_settle \/ settle = handleApplyFilter_settle
      \/ settle = handleApplyAdjustment_settle ->
      let s' := settle c (Resolved url) now s in
      history s' = history s /\ historyIndex s' = historyIndex s
      /\ error s' = Some (error_message err) /\ isLoading s' = false
      /\ propImages s' = propImages s /\ editHotspot s' = editHotspot s)
  /\ handleApplyManualAdjustment_onload c url now s = s
  /\ (forall mounted, handleApplyCrop mounted url now s = s)
  /\ handleApplyRestore (Some url) now s = s.
Proof.
  intros H.
  assert (Hn : forall n, dataURLtoFile url n = inl err)
    by (intros n; eapply dataURLtoFile_error_any_name, H).
  split; [|split; [|split]].
  - intros settle [-> | [-> | ->]]; cbv zeta;
      unfold handleGenerate_settle, handleApplyFilter_settle,
        handleApplyAdjustment_settle, handleApply_settle, received_file;
      rewrite Hn; destruct s; cbn; repeat split.
  - unfold handleApplyManualAdjustment_onload, append_canvas. now rewrite Hn.
  - intros mounted. unfold handleApplyCrop, append_canvas. rewrite Hn.
    destruct (completedCrop s); [|reflexivity]. now destruct mounted.
  - unfold handleApplyRestore. now rewrite Hn.
Qed.

Lemma hotspots_paired_frame (s s' : AppState) :
  editHotspot s' = editHotspot s -> displayHotspot s' = displayHotspot s ->
  hotspots_paired s -> hotspots_paired s'.
Proof. unfold hotspots_paired. intros -> ->. trivial. Qed.

Lemma hotspots_addImageToHistory c f s :
  editHotspot (addImageToHistory c f s) = editHotspot s
  /\ displayHotspot (addImageToHistory c f s) = displayHotspot s.
Proof. destruct s; split; reflexivity. Qed.

Local Ltac same_hotspots s IH :=
  eapply hotspots_paired_frame; [| |exact IH]; destruct s; reflexivity.

(** X9: The natural-pixel hotspot and the marker position are set together and
    cleared together: in every reachable state one is missing exactly when
    the other is. *)
Theorem hotspots_set_and_cleared_together (s : AppState) :
  reachable s -> hotspots_paired s.
Proof.
  induction 1 as
    [ | s files _ IH | s _ IH | s _ IH | s _ IH | s _ IH | s tab _ IH _
    | s v _ IH | s _ IH | s container img e _ IH
    | s v _ IH | s v _ IH | s v _ IH | s v _ IH | s v _ IH | s v _ IH
    | s v _ IH | s v _ IH | s v _ IH | s v _ IH | s v _ IH
    | s nf nu _ IH | s i _ IH
    | s s1 _ IH Hb | c s r now _ _ _ _ IH
    | s s1 _ IH Hb | c s r now _ _ _ _ IH
    | s s1 _ IH Hb | c s r now _ _ _ _ IH
    | c s url now _ _ _ _ IH
    | s mounted url now _ IH | s url now _ IH ];
    try (same_hotspots s IH).
  - split; reflexivity.
  - destruct files as [|f fs]; [exact IH|]. destruct s; split; reflexivity.
  - unfold handleUndo. destruct (canUndo s); [same_hotspots s IH|exact IH].
  - unfold handleRedo. destruct (canRedo s); [same_hotspots s IH|exact IH].
  - unfold handleReset. destruct (0 <? _); [same_hotspots s IH|exact IH].
  - unfold handleImageClick. destruct container as [[? ?]|]; [|exact IH].
    destruct (negb _); [exact IH|].
    destruct (outside_image _ _ _); destruct s; split; cbn; congruence.
  - destruct nf; [exact IH|]. same_hotspots s IH.
  - unfold handleGenerate_begin in Hb.
    destruct (currentImage s); [|discriminate].
    destruct (JS.trim_is_empty _); [discriminate|].
    destruct (editHotspot s) eqn:E; [|discriminate].
    injection Hb as <-.
    eapply hotspots_paired_frame; [| |exact IH]; destruct s; reflexivity.
  - unfold handleGenerate_settle.
    destruct (received_file r "edited" now) as [err|f].
    + same_hotspots s IH.
    + destruct s; split; reflexivity.
  - unfold handleApplyFilter_begin, handleApply_begin in Hb.
    destruct (currentImage s); [|discriminate]. injection Hb as <-.
    same_hotspots s IH.
  - unfold handleApplyFilter_settle, handleApply_settle.
    destruct (received_file _ _ _); same_hotspots s IH.
  - unfold handleApplyAdjustment_begin, handleApply_begin in Hb.
    destruct (currentImage s); [|discriminate]. injection Hb as <-.
    same_hotspots s IH.
  - unfold handleApplyAdjustment_settle, handleApply_settle.
    destruct (received_file _ _ _); same_hotspots s IH.
  - unfold handleApplyManualAdjustment_onload, append_canvas.
    destruct (dataURLtoFile _ _); [exact IH|same_hotspots s IH].
  - unfold handleApplyCrop, append_canvas. destruct (completedCrop s); [|exact IH].
    destruct mounted; [|exact IH].
    destruct (dataURLtoFile _ _); [exact IH|same_hotspots s IH].
  - unfold handleApplyRestore. destruct url as [u|]; [|same_hotspots s IH].
    destruct (dataURLtoFile _ _); [exact IH|same_hotspots s IH].
Qed.

(** X10: Loading a file replaces the whole history by that file: it is both the
    current and the original image, undo, redo and reset do nothing, the
    restore tab is disabled, hotspots, error, prop images and crop are
    cleared; the prompt, the adjustment vector and the busy flag are kept.
    An empty file list changes nothing. *)
Theorem loading_an_image_starts_a_fresh_history (s : AppState) (f : File)
    (others : list File) :
  let s' := handleFileSelect (f :: others) s in
  history s' = [f] /\ currentImage s' = Some f /\ originalImage s' = Some f
  /\ handleUndo s' = s' /\ handleRedo s' = s' /\ handleReset s' = s'
  /\ tab_disabled s' restore = true /\ activeTab s' = retouch
  /\ editHotspot s' = None /\ displayHotspot s' = None /\ error s' = None
  /\ propImages s' = [] /\ completedCrop s' = None
  /\ prompt s' = prompt s /\ adjustments s' = adjustments s
  /\ isLoading s' = isLoading s
  /\ handleFileSelect [] s = s.
Proof.
  destruct s. cbn. repeat split.
Qed.

(** ** Prop images *)

Lemma remove_at_shift {A} (l : list A) (i : Z) (n : nat) :
  map snd (filter (fun p => negb (Z.of_nat (fst p) =? i))
                  (imap (fun k x => ((n + k)%nat, x)) l))
  = if (Z.of_nat n <=? i) && (i <? Z.of_nat (n + length l))
    then take (Z.to_nat i - n) l ++ drop (S (Z.to_nat i - n)) l
    else l.
Proof.
  revert n. induction l as [|x l IH]; intros n.
  - cbn. destruct (_ && _); [|reflexivity]. now rewrite take_nil.
  - rewrite imap_cons. cbn [fst snd length].
    rewrite (imap_ext _ (fun k y => ((S n + k)%nat, y))) by (intros; cbn; f_equal; lia).
    specialize (IH (S n)).
    replace (n + 0)%nat with n by lia.
    destruct (Z.of_nat n =? i) eqn:E.
    + apply Z.eqb_eq in E.
      rewrite filter_cons_False by (cbn; rewrite (proj2 (Z.eqb_eq _ _) E); cbn; tauto).
      rewrite IH.
      replace ((Z.of_nat (S n) <=? i) && _) with false
        by (symmetry; apply andb_false_iff; left; apply Z.leb_gt; lia).
      replace ((Z.of_nat n <=? i) && _) with true
        by (symmetry; apply andb_true_iff; split;
            [apply Z.leb_le|apply Z.ltb_lt]; lia).
      replace (Z.to_nat i - n)%nat with 0%nat by lia. reflexivity.
    + apply Z.eqb_neq in E.
      rewrite filter_cons_True by (cbn; rewrite (proj2 (Z.eqb_neq _ _) E); cbn; tauto).
      cbn [map snd]. rewrite IH.
      destruct ((Z.of_nat n <=? i) && (i <? Z.of_nat (n + S (length l)))) eqn:B.
      * apply andb_true_iff in B as [B1 B2].
        apply Z.leb_le in B1. apply Z.ltb_lt in B2.
        replace ((Z.of_nat (S n) <=? i) && _) with true
          by (symmetry; apply andb_true_iff; split;
              [apply Z.leb_le|apply Z.ltb_lt]; lia).
        replace (Z.to_nat i - n)%nat with (S (Z.to_nat i - S n)) by lia.
        reflexivity.
      * replace ((Z.of_nat (S n) <=? i) && _) with false; [reflexivity|].
        symmetry. apply andb_false_iff.
        apply andb_false_iff in B as [B|B].
        -- left. apply Z.leb_gt in B. apply Z.leb_gt. lia.
        -- right. apply Z.ltb_ge in B. apply Z.ltb_ge. lia.
Qed.

Lemma remove_at_spec {A} (l : list A) (i : Z) :
  remove_at i l
  = if (0 <=? i) && (i <? Z.of_nat (length l))
    then take (Z.to_nat i) l ++ drop (S (Z.to_nat i)) l
    else l.
Proof.
  unfold remove_at.
  rewrite (imap_ext pair (fun k x => ((0 + k)%nat, x)) l) by reflexivity.
  rewrite remove_at_shift. cbn [Z.of_nat Nat.add].
  now rewrite Nat.sub_0_r.
Qed.

(** X11: Removing the prop image at an index of the list removes that image and
    its URL and nothing else; an index outside the list leaves the state as
    it is; the two lists keep the same length. *)
Theorem remove_prop_image (s : AppState) (i : Z) :
  props_aligned s ->
  let s' := handleRemovePropImage s i s in
  props_aligned s'
  /\ (0 <= i < Z.of_nat (length (propImages s)) ->
      propImages s'
      = take (Z.to_nat i) (propImages s) ++ drop (S (Z.to_nat i)) (propImages s)
      /\ propImageUrls s'
         = take (Z.to_nat i) (propImageUrls s)
           ++ drop (S (Z.to_nat i)) (propImageUrls s)
      /\ S (length (propImages s')) = length (propImages s))
  /\ (i < 0 \/ Z.of_nat (length (propImages s)) <= i -> s' = s).
Proof.
  intros Ha. cbv zeta.
  destruct s as [h ix p l er eh dh t c cc a ic pi pu dp bs bo ip sc bp adj].
  unfold props_aligned in *. unfold handleRemovePropImage.
  cbn [propImages propImageUrls setPropImages setPropImageUrls] in *.
  rewrite !remove_at_spec, <- Ha.
  destruct ((0 <=? i) && (i <? Z.of_nat (length pi))) eqn:B.
  - apply andb_true_iff in B as [B1 B2].
    apply Z.leb_le in B1. apply Z.ltb_lt in B2.
    split; [|split].
    + rewrite !length_app, !length_take, !length_drop. lia.
    + intros _. split; [reflexivity|]. split; [reflexivity|].
      rewrite length_app, length_take, length_drop. lia.
    + lia.
  - split; [exact Ha|]. split; [|reflexivity].
    intros [H1 H2]. apply andb_false_iff in B as [B|B].
    + apply Z.leb_gt in B. lia.
    + apply Z.ltb_ge in B. lia.
Qed.

(** X12: Selecting or dropping prop images appends them, with their URLs, in
    order, and clearing empties both lists: images and URLs stay aligned.  A
    drop also ends the drag highlight and does not touch the history. *)
Theorem prop_lists_stay_aligned (s : AppState) (files : list File)
    (urls : list string) :
  props_aligned s -> length files = length urls ->
  (forall handler,
      handler = handlePropImageSelect files urls
      \/ handler = handlePropDrop files urls
      \/ handler = handleClearAllPropImages ->
      props_aligned (handler s))
  /\ propImages (handlePropImageSelect files urls s) = propImages s ++ files
  /\ propImageUrls (handlePropImageSelect files urls s) = propImageUrls s ++ urls
  /\ propImages (handlePropDrop files urls s) = propImages s ++ files
  /\ isDraggingProp (handlePropDrop files urls s) = false
  /\ history (handlePropDrop files urls s) = history s.
Proof.
  intros Ha Hl.
  destruct s as [h ix p l er eh dh t c cc a ic pi pu dp bs bo ip sc bp adj].
  unfold props_aligned in *.
  cbn [propImages propImageUrls] in *.
  split.
  - intros handler [-> | [-> | ->]];
      unfold handlePropDrop, handlePropImageSelect, handleClearAllPropImages;
      destruct files; cbn; rewrite ?length_app; cbn in *; try lia.
  - unfold handlePropDrop, handlePropImageSelect.
    destruct files as [|f fs].
    + destruct urls; [|discriminate]. cbn. rewrite !app_nil_r. repeat split.
    + cbn. repeat split.
Qed.

(** ** The restore brush *)

Lemma connected_snoc (l : list Stroke) (b : Stroke) :
  connected l ->
  (forall a, last l = Some a ->
     stroke_start b = stroke_end a \/ stroke_start b = stroke_end b) ->
  connected (l ++ [b]).
Proof.
  induction l as [|a l IH]; intros Hc Hl; [exact I|].
  destruct l as [|a' l].
  - cbn. split; [|exact I]. apply Hl. reflexivity.
  - destruct Hc as [H1 H2]. split; [exact H1|].
    apply IH; [exact H2|]. intros x Hx. apply Hl. exact Hx.
Qed.

Lemma getCanvasCoordinates_mounted canvas e p :
  getCanvasCoordinates canvas e = Some p -> exists cv, canvas = Some cv.
Proof. destruct canvas; [eauto|discriminate]. Qed.

Lemma pointer_step_inv canvas ev b :
  brush_inv b -> brush_inv (pointer_step canvas ev b).
Proof.
  intros [Hc Hl]. destruct ev as [e|container e| | |]; cbn [pointer_step].
  - unfold handleCanvasMouseDown.
    destruct (getCanvasCoordinates canvas e) as [coords|] eqn:E; [|split; assumption].
    destruct (getCanvasCoordinates_mounted _ _ _ E) as [cv ->].
    unfold drawOnMask. cbn [strokes lastPointRef brush_app]. split.
    + apply connected_snoc; [exact Hc|]. intros a _. right. reflexivity.
    + intros p [= <-]. eexists. split; [apply last_snoc|reflexivity].
  - unfold handleCanvasMouseMove.
    destruct (negb (isPainting (brush_app b))); [split; assumption|].
    destruct (getCanvasCoordinates canvas e) as [coords|] eqn:E.
    + destruct (getCanvasCoordinates_mounted _ _ _ E) as [cv ->].
      unfold drawOnMask. cbn [strokes lastPointRef brush_app]. split.
      * apply connected_snoc; [exact Hc|]. intros a Ha.
        destruct (lastPointRef b) as [p|] eqn:Ep.
        -- left. destruct (Hl p eq_refl) as (st & Hst & Hend).
           cbn [stroke_start]. congruence.
        -- right. reflexivity.
      * intros p [= <-]. eexists. split; [apply last_snoc|reflexivity].
    + split; [exact Hc|]. intros p. discriminate.
  - split; [exact Hc|]. intros p. discriminate.
  - split; [exact Hc|]. intros p. discriminate.
  - split; assumption.
Qed.

(** The pointer handlers only ever add strokes. *)
Lemma strokes_grow (canvas : option CanvasElement)
    (evs : list PointerEvent) (b : Brush) :
  strokes b `prefix_of` strokes (pointer_run canvas evs b).
Proof.
  revert b. unfold pointer_run.
  induction evs as [|ev evs IH]; intros b; cbn [foldl]; [reflexivity|].
  etransitivity; [|apply IH].
  destruct ev as [e|container e| | |]; cbn [pointer_step]; try reflexivity.
  - unfold handleCanvasMouseDown.
    destruct (getCanvasCoordinates canvas e); [|reflexivity].
    unfold drawOnMask. destruct canvas; cbn; [apply prefix_app_r|]; reflexivity.
  - unfold handleCanvasMouseMove.
    destruct (negb _); [reflexivity|].
    destruct (getCanvasCoordinates canvas e); [|reflexivity].
    unfold drawOnMask. destruct canvas; cbn; [apply prefix_app_r|]; reflexivity.
Qed.

(** X13: Whatever the pointer does, the strokes issued to the mask form
    connected paths: each stroke starts where the one before ended, or is a
    dot that starts a new path; while a last point is remembered it is the
    end of the latest stroke; and strokes are only ever added. *)
Theorem brush_strokes_form_connected_paths (canvas : option CanvasElement)
    (evs : list PointerEvent) (app : AppState) :
  let b := pointer_run canvas evs (mkBrush app None []) in
  (connected (strokes b)
   /\ forall p, lastPointRef b = Some p ->
        exists st, last (strokes b) = Some st /\ stroke_end st = p)
  /\ forall b0, strokes b0 `prefix_of` strokes (pointer_run canvas evs b0).
Proof.
  cbv zeta. split; [|intros b0; apply strokes_grow].
  change (brush_inv (pointer_run canvas evs (mkBrush app None []))).
  assert (H0 : brush_inv (mkBrush app None [])).
  { split; [exact I|]. intros p. discriminate. }
  revert H0. generalize (mkBrush app None []). unfold pointer_run.
  induction evs as [|ev evs IH]; intros b Hb; cbn [foldl]; [exact Hb|].
  apply IH, pointer_step_inv, Hb.
Qed.

Lemma hover_step canvas ev b :
  is_hover ev = true -> isPainting (brush_app b) = false ->
  strokes (pointer_step canvas ev b) = strokes b
  /\ isPainting (brush_app (pointer_step canvas ev b)) = false.
Proof.
  intros Hh Hp. destruct ev as [e|container e| | |]; try discriminate;
    cbn [pointer_step].
  - unfold handleCanvasMouseMove. rewrite Hp. cbn [negb strokes brush_app].
    split; [reflexivity|]. destruct (brush_app b); exact Hp.
  - cbn. split; [reflexivity|]. now destruct (brush_app b).
  - cbn. split; [reflexivity|]. now destruct (brush_app b).
  - cbn. split; [reflexivity|]. destruct (brush_app b); exact Hp.
Qed.

(** X14: Moving, entering, leaving or releasing never paints unless the button
    is held: after mouse up or mouse leave no stroke is added until the next
    mouse down, and a mouse down outside the canvas does nothing. *)
Theorem brush_paints_only_while_pressed (canvas : option CanvasElement)
    (evs : list PointerEvent) (b : Brush) :
  forallb is_hover evs = true ->
  (isPainting (brush_app b) = false ->
     strokes (pointer_run canvas evs b) = strokes b)
  /\ strokes (pointer_run canvas evs (handleCanvasMouseUp b)) = strokes b
  /\ strokes (pointer_run canvas evs (handleCanvasMouseLeave b)) = strokes b
  /\ (forall e, getCanvasCoordinates canvas e = None ->
        handleCanvasMouseDown canvas e b = b).
Proof.
  intros Hev.
  assert (H : forall b0, isPainting (brush_app b0) = false ->
                strokes (pointer_run canvas evs b0) = strokes b0).
  { unfold pointer_run. induction evs as [|ev evs IH]; intros b0 Hp; [reflexivity|].
    cbn [forallb] in Hev. apply andb_true_iff in Hev as [H1 H2].
    cbn [foldl]. destruct (hover_step canvas ev b0 H1 Hp) as [Hs Hp'].
    rewrite (IH H2 _ Hp'). exact Hs. }
  split; [apply H|]. split; [|split].
  - rewrite H; [reflexivity|]. cbn. now destruct (brush_app b).
  - rewrite H; [reflexivity|]. cbn. now destruct (brush_app b).
  - intros e He. unfold handleCanvasMouseDown. now rewrite He.
Qed.

(** ** Data URLs *)

Lemma code_eqb_char (c : ascii) (n : nat) :
  (n < 256)%nat -> (nat_of_ascii c =? n)%nat = true <-> c = ascii_of_nat n.
Proof.
  intros Hn. rewrite Nat.eqb_eq. split.
  - intros <-. symmetry. apply ascii_nat_embedding.
  - intros ->. now apply nat_ascii_embedding.
Qed.

Lemma has_char_cons n c s :
  has_char n (String c s) <-> c = ascii_of_nat n \/ has_char n s.
Proof. unfold has_char. cbn. intuition congruence. Qed.

Lemma has_char_dec n s : {has_char n s} + {~ has_char n s}.
Proof. apply in_dec, ascii_dec. Qed.

Lemma split_comma_no_comma (s : string) :
  ~ has_char 44 s -> split_comma s = [s].
Proof.
  induction s as [|c s IH]; intros H; [reflexivity|].
  cbn [split_comma].
  destruct (nat_of_ascii c =? 44)%nat eqn:E.
  - exfalso. apply H, has_char_cons. left. apply code_eqb_char; [lia|exact E].
  - rewrite IH; [reflexivity|]. intros Hs. apply H, has_char_cons. now right.
Qed.

Lemma lazy_until_semicolon_clean (s g : string) :
  lazy_until_semicolon s = Some g ->
  ~ has_char 59 g /\ ~ has_char 10 g /\ ~ has_char 13 g.
Proof.
  revert g. induction s as [|c s IH]; intros g; cbn [lazy_until_semicolon];
    [discriminate|].
  destruct (nat_of_ascii c =? 59)%nat eqn:E59.
  { intros [= <-]. unfold has_char. cbn. tauto. }
  unfold is_line_terminator.
  destruct (nat_of_ascii c =? 10)%nat eqn:E10; [discriminate|].
  destruct (nat_of_ascii c =? 13)%nat eqn:E13; [discriminate|].
  cbn [orb].
  destruct (lazy_until_semicolon s) as [g'|]; [|discriminate].
  intros [= <-]. destruct (IH g' eq_refl) as (H1 & H2 & H3).
  repeat split; intros H; apply has_char_cons in H as [H|H]; try tauto;
    apply code_eqb_char in H; try lia; congruence.
Qed.

Lemma match_mime_clean (s g : string) :
  match_mime s = Some g ->
  ~ has_char 59 g /\ ~ has_char 10 g /\ ~ has_char 13 g.
Proof.
  induction s as [|c s IH]; cbn [match_mime]; [discriminate|].
  destruct (nat_of_ascii c =? 58)%nat; [|exact IH].
  destruct (lazy_until_semicolon s) as [g'|] eqn:E; [|exact IH].
  intros [= <-]. eapply lazy_until_semicolon_clean, E.
Qed.

Lemma char_codes_range (s : string) :
  Forall (fun b => 0 <= b < 256) (char_codes s).
Proof.
  unfold char_codes. apply Forall_forall. intros b Hb.
  apply list_elem_of_In, in_map_iff in Hb as (c & <- & _).
  pose proof (nat_ascii_bounded c). lia.
Qed.


(** ** Base64 round trip *)

Module Base64Facts.
Import Base64 Base64Encode.

Lemma list_ind3 {A} (P : list A -> Prop) :
  P [] -> (forall a, P [a]) -> (forall a b, P [a; b]) ->
  (forall a b c l, P l -> P (a :: b :: c :: l)) ->
  forall l, P l.
Proof.
  intros H0 H1 H2 H3.
  fix IH 1. intros [|a [|b [|c l]]]; [exact H0|apply H1|apply H2|].
  apply H3, IH.
Qed.

Lemma digit_facts (v : Z) :
  0 <= v < 64 ->
  sextet (digit v) = Some v /\ is_pad (digit v) = false
  /\ is_ascii_whitespace (digit v) = false
  /\ (nat_of_ascii (digit v) =? 44)%nat = false.
Proof.
  intros Hv. rewrite <- (Z2Nat.id v) by lia.
  assert (Hn : (Z.to_nat v < 64)%nat) by lia.
  revert Hn. generalize (Z.to_nat v). clear v Hv. intros n Hn.
  do 64 (destruct n as [|n]; [repeat split; reflexivity|]). lia.
Qed.

Lemma sextet_digit (v : Z) : 0 <= v < 64 -> sextet (digit v) = Some v.
Proof. intros H. now apply digit_facts. Qed.

Lemma pad_facts :
  is_ascii_whitespace pad = false /\ is_pad pad = true
  /\ (nat_of_ascii pad =? 44)%nat = false.
Proof. repeat split. Qed.

Lemma strip_whitespace_clean (l : list ascii) :
  Forall (fun c => is_ascii_whitespace c = false
                   /\ (nat_of_ascii c =? 44)%nat = false) l ->
  strip_whitespace (string_of_list_ascii l) = l.
Proof.
  induction 1 as [|c l [Hc _] _ IH]; [reflexivity|].
  cbn [string_of_list_ascii strip_whitespace]. now rewrite Hc, IH.
Qed.

Local Ltac solve_sextet_range :=
  match goal with
  | |- 0 <= _ < 64 => Z.div_mod_to_equations; lia
  end.

Lemma encode_groups_clean (bytes : list Z) :
  Forall byte_range bytes ->
  Forall (fun c => is_ascii_whitespace c = false
                   /\ (nat_of_ascii c =? 44)%nat = false)
         (encode_groups bytes).
Proof.
  unfold byte_range.
  induction bytes as [|a|a b|a b c l IH] using list_ind3; intros H.
  - constructor.
  - inversion_clear H as [|? ? Ha _]. cbn [encode_groups].
    repeat constructor; try apply pad_facts; apply digit_facts; solve_sextet_range.
  - inversion_clear H as [|? ? Ha H']. inversion_clear H' as [|? ? Hb _].
    cbn [encode_groups].
    repeat constructor; try apply pad_facts; apply digit_facts; solve_sextet_range.
  - inversion_clear H as [|? ? Ha H']. inversion_clear H' as [|? ? Hb H''].
    inversion_clear H'' as [|? ? Hc Hl].
    cbn [encode_groups].
    repeat (constructor; [split; apply digit_facts; solve_sextet_range|]).
    apply IH, Hl.
Qed.

Lemma strip_padding_cons4 (a b c d : ascii) (l : list ascii) :
  (2 <= length l)%nat ->
  strip_padding (a :: b :: c :: d :: l) = a :: b :: c :: d :: strip_padding l.
Proof.
  intros Hl. unfold strip_padding.
  replace (length (a :: b :: c :: d :: l)) with (length l + 1 * 4)%nat
    by (cbn [length]; lia).
  rewrite Nat.Div0.mod_add.
  destruct (length l mod 4 =? 0)%nat; [|reflexivity].
  rewrite !reverse_cons.
  destruct (reverse l) as [|p1 [|p2 r]] eqn:Er.
  - apply (f_equal length) in Er. rewrite length_reverse in Er. cbn in Er. lia.
  - apply (f_equal length) in Er. rewrite length_reverse in Er. cbn in Er. lia.
  - cbn [app]. destruct (is_pad p1); [|reflexivity].
    destruct (is_pad p2).
    + rewrite !reverse_app. reflexivity.
    + rewrite !reverse_cons, !reverse_app. reflexivity.
Qed.

Lemma encode_groups_length (l : list Z) :
  l <> [] -> (2 <= length (encode_groups l))%nat.
Proof. destruct l as [|x [|y [|z l']]]; intros H; cbn; try lia. congruence. Qed.

Lemma strip_padding_encode (bytes : list Z) :
  Forall byte_range bytes ->
  strip_padding (encode_groups bytes) = encode_unpadded bytes.
Proof.
  unfold byte_range.
  induction bytes as [|a|a b|a b c l IH] using list_ind3; intros H.
  - reflexivity.
  - reflexivity.
  - inversion_clear H as [|? ? Ha H']. inversion_clear H' as [|? ? Hb _].
    cbn [encode_groups encode_unpadded]. unfold strip_padding.
    cbn [length Nat.modulo Nat.divmod fst snd Nat.eqb Nat.sub reverse rev_append].
    change (is_pad pad) with true. cbv iota.
    assert (Hd : is_pad (digit (((a * 256 + b) * 4) mod 64)) = false)
      by (apply digit_facts; solve_sextet_range).
    now rewrite Hd.
  - inversion_clear H as [|? ? Ha H']. inversion_clear H' as [|? ? Hb H''].
    inversion_clear H'' as [|? ? Hc Hl].
    cbn [encode_groups encode_unpadded].
    destruct l as [|x l'].
    + cbn [encode_groups encode_unpadded]. unfold strip_padding.
      cbn [length Nat.modulo Nat.divmod fst snd Nat.eqb Nat.sub reverse rev_append].
      assert (Hd : is_pad (digit ((a * 65536 + b * 256 + c) mod 64)) = false)
        by (apply digit_facts; solve_sextet_range).
      now rewrite Hd.
    + rewrite strip_padding_cons4 by (apply encode_groups_length; discriminate).
      now rewrite IH.
Qed.

Lemma decode_encode (bytes : list Z) :
  Forall byte_range bytes ->
  exists vs, sextets (encode_unpadded bytes) = Some vs
             /\ decode_groups vs = bytes
             /\ (length (encode_unpadded bytes) mod 4 =? 1)%nat = false.
Proof.
  unfold byte_range.
  induction bytes as [|a|a b|a b c l IH] using list_ind3; intros H.
  - exists []. repeat split.
  - inversion_clear H as [|? ? Ha _]. cbn [encode_unpadded sextets].
    rewrite !sextet_digit by solve_sextet_range.
    eexists. split; [reflexivity|]. split; [|reflexivity].
    cbn [decode_groups]. f_equal. Z.div_mod_to_equations. lia.
  - inversion_clear H as [|? ? Ha H']. inversion_clear H' as [|? ? Hb _].
    cbn [encode_unpadded sextets].
    rewrite !sextet_digit by solve_sextet_range.
    eexists. split; [reflexivity|]. split; [|reflexivity].
    cbn [decode_groups]. f_equal; [|f_equal]; Z.div_mod_to_equations; lia.
  - inversion_clear H as [|? ? Ha H']. inversion_clear H' as [|? ? Hb H''].
    inversion_clear H'' as [|? ? Hc Hl].
    destruct (IH Hl) as (vs & Hvs & Hdec & Hlen).
    cbn [encode_unpadded sextets]. rewrite Hvs.
    rewrite !sextet_digit by solve_sextet_range.
    eexists. split; [reflexivity|]. split.
    + cbn [decode_groups]. rewrite Hdec.
      f_equal; [|f_equal; [|f_equal]]; Z.div_mod_to_equations; lia.
    + cbn [length].
      replace (S (S (S (S (length (encode_unpadded l))))))
        with (length (encode_unpadded l) + 1 * 4)%nat by lia.
      now rewrite Nat.Div0.mod_add.
Qed.

(** [atob] inverts the standard encoder on every byte string. *)
Lemma atob_btoa (bytes : list Z) :
  Forall byte_range bytes ->
  atob (btoa bytes) = inr (binary_string bytes).
Proof.
  intros H. unfold atob, btoa.
  rewrite strip_whitespace_clean by now apply encode_groups_clean.
  rewrite strip_padding_encode by exact H.
  destruct (decode_encode bytes H) as (vs & Hvs & Hdec & Hlen).
  now rewrite Hlen, Hvs, Hdec.
Qed.


Lemma split_comma_clean (l : list ascii) :
  Forall (fun c => is_ascii_whitespace c = false
                   /\ (nat_of_ascii c =? 44)%nat = false) l ->
  split_comma (string_of_list_ascii l) = [string_of_list_ascii l].
Proof.
  induction 1 as [|c l [_ Hc] _ IH]; [reflexivity|].
  cbn [string_of_list_ascii split_comma]. now rewrite Hc, IH.
Qed.

Lemma no_char_cons (n : nat) (c : ascii) (s : string) :
  (n < 256)%nat -> ~ has_char n (String c s) ->
  (nat_of_ascii c =? n)%nat = false /\ ~ has_char n s.
Proof.
  intros Hn H. split.
  - apply not_true_is_false. intros E. apply H. left.
    symmetry. apply Nat.eqb_eq in E. rewrite <- E. apply ascii_nat_embedding.
  - intros Hs. apply H. now right.
Qed.

Lemma split_comma_nonempty (s : string) : split_comma s <> [].
Proof.
  destruct s as [|c s]; cbn [split_comma]; [discriminate|].
  destruct (_ =? _)%nat; [discriminate|]. now destruct (split_comma s).
Qed.

Lemma split_comma_prefix (m r : string) :
  ~ has_char 44 m ->
  split_comma (m ++ r)
  = match split_comma r with
    | h :: t => (m ++ h)%string :: t
    | [] => [m]
    end.
Proof.
  pose proof (split_comma_nonempty r) as Hr.
  induction m as [|c m IH]; intros H.
  - cbn [append]. now destruct (split_comma r).
  - destruct (no_char_cons 44 c m ltac:(lia) H) as [Hc Hm].
    cbn [append split_comma]. rewrite Hc, (IH Hm).
    now destruct (split_comma r).
Qed.

Lemma lazy_until_semicolon_prefix (m r : string) :
  ~ has_char 59 m -> ~ has_char 10 m -> ~ has_char 13 m ->
  lazy_until_semicolon (m ++ String ";" r) = Some m.
Proof.
  induction m as [|c m IH]; intros H1 H2 H3; [reflexivity|].
  destruct (no_char_cons 59 c m ltac:(lia) H1) as [E1 H1'].
  destruct (no_char_cons 10 c m ltac:(lia) H2) as [E2 H2'].
  destruct (no_char_cons 13 c m ltac:(lia) H3) as [E3 H3'].
  cbn [append lazy_until_semicolon]. unfold is_line_terminator.
  now rewrite E1, E2, E3, (IH H1' H2' H3').
Qed.

Lemma char_codes_binary_string (bytes : list Z) :
  Forall byte_range bytes -> char_codes (binary_string bytes) = bytes.
Proof.
  unfold char_codes, binary_string. rewrite list_ascii_of_string_of_list_ascii.
  induction 1 as [|b l Hb _ IH]; [reflexivity|].
  cbn [map]. rewrite IH. f_equal. unfold byte_range in Hb.
  rewrite nat_ascii_embedding by lia. lia.
Qed.

Lemma split_comma_comma (s : string) :
  split_comma (String "," s) = ""%string :: split_comma s.
Proof. reflexivity. Qed.

Lemma match_mime_data (s : string) :
  match_mime ("data:" ++ s)
  = match lazy_until_semicolon s with
    | Some g => Some g
    | None => match_mime s
    end.
Proof. reflexivity. Qed.

Lemma literal_without_comma :
  ~ has_char 44 "data:" /\ ~ has_char 44 ";base64".
Proof. unfold has_char. cbn. intuition discriminate. Qed.

Lemma dataURLtoFile_data_url (mime : string) (bytes : list Z)
    (name : string) :
  mime <> ""%string ->
  ~ has_char 44 mime -> ~ has_char 59 mime ->
  ~ has_char 10 mime -> ~ has_char 13 mime ->
  Forall byte_range bytes ->
  dataURLtoFile (data_url mime bytes) name = inr (mkFile bytes name mime).
Proof.
  intros Hne H44 H59 H10 H13 Hb.
  unfold dataURLtoFile, data_url.
  change (";base64," ++ btoa bytes)%string
    with (";base64" ++ String "," (btoa bytes))%string.
  rewrite (split_comma_prefix "data:" _ (proj1 literal_without_comma)).
  rewrite (split_comma_prefix mime _ H44).
  rewrite (split_comma_prefix ";base64" _ (proj2 literal_without_comma)).
  rewrite split_comma_comma. unfold btoa at 1.
  rewrite (split_comma_clean _ (encode_groups_clean _ Hb)).
  change (";base64" ++ "")%string with (String ";" "base64").
  rewrite match_mime_data.
  rewrite (lazy_until_semicolon_prefix mime "base64" H59 H10 H13).
  destruct mime as [|c m]; [congruence|].
  fold (btoa bytes). rewrite (atob_btoa bytes Hb).
  now rewrite char_codes_binary_string.
Qed.



End Base64Facts.

(** ** Successful edits *)

Lemma appended_frame (s s1 s2 : AppState) (f : File) :
  history s2 = history s1 -> historyIndex s2 = historyIndex s1 ->
  adjustments s2 = adjustments s1 -> crop s2 = crop s1 ->
  completedCrop s2 = completedCrop s1 ->
  appended s s1 f -> appended s s2 f.
Proof.
  unfold appended, currentImage, originalImage, canUndo, canRedo.
  intros -> -> -> -> ->. trivial.
Qed.

Lemma addImageToHistory_appended (s s0 : AppState) (f : File) :
  history_wf s -> history s <> [] ->
  appended s (addImageToHistory s f s0) f.
Proof.
  intros W Hne.
  assert (Hs0 : appended s (addImageToHistory s f s) f).
  { destruct (addImageToHistory_facts s f W) as (_ & Hlen & Hcur & Hredo & _ & Hn).
    destruct (Hn Hne) as (Hundo & Horig & _).
    assert (Hi : 0 <= historyIndex s).
    { destruct W as [[Hh _]|Hi]; [contradiction|lia]. }
    unfold appended. rewrite history_addImageToHistory, slice_prefix by lia.
    split; [reflexivity|]. split.
    { rewrite historyIndex_addImageToHistory. lia. }
    repeat split; try assumption; destruct s; reflexivity. }
  eapply appended_frame; [..|exact Hs0]; destruct s0, s; reflexivity.
Qed.

Local Ltac frame_on_append :=
  match goal with
  | |- context [addImageToHistory ?c ?f ?s0] =>
      destruct (addImageToHistory c f s0); reflexivity
  end.

Lemma settle_appended (prefix : string) (s s0 : AppState) (r : response)
    (now : Z) (f : File) :
  history_wf s -> history s <> [] -> received_file r prefix now = inr f ->
  appended s (handleApply_settle prefix s r now s0) f
  /\ isLoading (handleApply_settle prefix s r now s0) = false
  /\ error (handleApply_settle prefix s r now s0) = error s0.
Proof.
  intros W Hne Hf. unfold handleApply_settle. rewrite Hf. split; [|split].
  - eapply appended_frame; [..|apply (addImageToHistory_appended s s0 f W Hne)];
      frame_on_append.
  - frame_on_append.
  - destruct s0; reflexivity.
Qed.

Lemma generate_settle_appended (s s0 : AppState) (r : response) (now : Z)
    (f : File) :
  history_wf s -> history s <> [] -> received_file r "edited" now = inr f ->
  let s' := handleGenerate_settle s r now s0 in
  appended s s' f /\ isLoading s' = false /\ error s' = error s0
  /\ editHotspot s' = None /\ displayHotspot s' = None
  /\ propImages s' = [] /\ propImageUrls s' = [].
Proof.
  intros W Hne Hf. cbv zeta. unfold handleGenerate_settle. rewrite Hf.
  split; [|repeat split; try frame_on_append; destruct s0; reflexivity].
  eapply appended_frame; [..|apply (addImageToHistory_appended s s0 f W Hne)];
    frame_on_append.
Qed.



(** ** The manual adjustment panel *)

(** X18: A slider writes its own field of the vector and no other, writing the
    old value back undoes it, and resetting the only slider that was moved
    gives the default vector back. *)
Theorem slider_change_touches_one_field (adjustments : ManualAdjustments)
    (key : AdjustmentKey) (value : float) :
  adjustment_get key (handleSliderChange adjustments key value) = value
  /\ (forall other, other <> key ->
        adjustment_get other (handleSliderChange adjustments key value)
        = adjustment_get other adjustments)
  /\ handleSliderChange (handleSliderChange adjustments key value) key
       (adjustment_get key adjustments) = adjustments
  /\ adjustment_get key (handleResetSlider adjustments key) = 0%float
  /\ (forall other, other <> key ->
        adjustment_get other (handleResetSlider adjustments key)
        = adjustment_get other adjustments)
  /\ handleResetSlider (handleSliderChange defaultAdjustments key value) key
     = defaultAdjustments.
Proof.
  destruct adjustments. unfold handleSliderChange, handleResetSlider.
  split; [destruct key; reflexivity|].
  split; [intros other Hne; destruct key, other; try reflexivity; congruence|].
  split; [destruct key; reflexivity|].
  split; [destruct key; reflexivity|].
  split; [intros other Hne; destruct key, other; try reflexivity; congruence|].
  destruct key; reflexivity.
Qed.

Lemma json_zero_is_zero (x : float) :
  JsonNumber_eqb (json_number x) json_zero = true ->
  x = 0%float \/ x = (-0)%float.
Proof.
  unfold json_number. intros H. rewrite <- (SF2Prim_Prim2SF x).
  destruct (Prim2SF x) as [[|]| | |]; try discriminate.
  - right. reflexivity.
  - left. reflexivity.
Qed.

Lemma hasChanges_false_zero (a : ManualAdjustments) :
  hasChanges a = false ->
  forall key, adjustment_get key a = 0%float \/ adjustment_get key a = (-0)%float.
Proof.
  unfold hasChanges. intros H. apply negb_false_iff in H.
  destruct a as [te ti ex co hi sh wh bl cl vi sa].
  change (json_adjustments defaultAdjustments)
    with (repeat json_zero 11) in H.
  cbn [json_adjustments map temperature tint exposure contrast highlights shadows
       whites blacks clarity vibrance saturation repeat json_list_eqb] in H.
  repeat (apply andb_true_iff in H as [?H H]).
  intros key. destruct key; cbn [adjustment_get temperature tint exposure contrast
    highlights shadows whites blacks clarity vibrance saturation];
    now apply json_zero_is_zero.
Qed.

(** ** Canvas laws *)

Module CanvasLaws.

Import Canvas CanvasFacts.

Local Ltac canvas_struct :=
  cbn [bitmap filter globalCompositeOperation fillStyle width height pixel
       getContext createCanvas set_globalCompositeOperation set_filter
       set_fillStyle drawImage paint clearRect fillRect].

Lemma quantize_range (q : Q) : 0 <= quantize q <= 255.
Proof. unfold quantize. lia. Qed.

(** Whatever is drawn on whatever pixel, the stored result is a pixel of a
    bitmap. *)
Lemma composite_valid (op : operator) (src : Color) (backdrop : RGBA) :
  valid_pixel (composite op src backdrop).
Proof.
  unfold composite.
  destruct (store _ =? 0) eqn:E.
  - unfold valid_pixel. cbn. lia.
  - apply Z.eqb_neq in E. unfold valid_pixel.
    cbn [red green blue alpha]. unfold store in *.
    split; [apply quantize_range|]. split; [apply quantize_range|].
    split; [apply quantize_range|]. split; [apply quantize_range|].
    intros H. contradiction.
Qed.

(** The filter functions do not touch alpha. *)
Lemma apply_filters_alpha (fs : list filter_function) (c : Color) :
  ca (apply_filters fs c) = ca c.
Proof.
  unfold apply_filters. revert c.
  induction fs as [|f fs IH]; intros c; cbn [foldl]; [reflexivity|].
  rewrite IH. now destruct f.
Qed.

(** An opaque colour drawn with source-over or a blend mode gives an opaque
    pixel, and so does any colour drawn on an opaque pixel. *)
Lemma composite_opaque_result (op : operator) (c : Color) (p : RGBA) :
  op <> destination_in -> (ca c == 1)%Q -> alpha (composite op c p) = 255.
Proof.
  intros Hop Ha. unfold composite.
  assert (EFa : Fa op = 1%Q) by (destruct op; [reflexivity|congruence|reflexivity..]).
  assert (EFb : Fb op (ca c) = (1 - ca c)%Q)
    by (destruct op; [reflexivity|congruence|reflexivity..]).
  rewrite EFa, EFb.
  assert (Eo : store (ca c * 1 + unit_of (alpha p) * (1 - ca c)) = 255).
  { apply store_unit; [lia|]. rewrite Ha, unit_of_255. ring. }
  rewrite Eo. reflexivity.
Qed.

Lemma composite_on_opaque_alpha (op : operator) (c : Color) (p : RGBA) :
  op <> destination_in -> alpha p = 255 -> alpha (composite op c p) = 255.
Proof. intros Hop Hp. now rewrite composite_on_opaque. Qed.

Lemma drawn_from_base (adj : ManualAdjustments) (image : Surface) :
  drawn_from image
    (drawImage image 0 0
       (set_filter (manual_filters adj)
          (getContext (createCanvas (width image) (height image))))).
Proof.
  unfold drawn_from.
  destruct (manual_filters adj) as [fs|]; canvas_struct;
    (split; [reflexivity|]; split; [reflexivity|]; intros x y;
     split; [eauto|]; intros Hb Ho; rewrite !Z.sub_0_r;
     rewrite sample_in_bounds by exact Hb;
     apply composite_opaque_result; [discriminate|];
     rewrite apply_filters_alpha; cbn [to_color ca]; now rewrite Ho).
Qed.

Lemma drawn_from_fill (image : Surface) (op : operator) (col : option Color)
    (ctx : Context2D) :
  op <> destination_in -> drawn_from image ctx ->
  drawn_from image
    (fillRect 0 0 (width image) (height image)
       (set_fillStyle col (set_globalCompositeOperation op ctx))).
Proof.
  intros Hop (Hw & Hh & Hp). unfold drawn_from.
  destruct col as [col|]; canvas_struct;
    (split; [exact Hw|]; split; [exact Hh|]; intros x y;
     split; [eauto|]; intros Hb Ho;
     apply composite_on_opaque_alpha; [exact Hop|];
     now apply (proj2 (Hp x y))).
Qed.

Lemma drawn_from_operator (image : Surface) (op : operator) (ctx : Context2D) :
  drawn_from image ctx ->
  drawn_from image (set_globalCompositeOperation op ctx).
Proof. intros H. exact H. Qed.

Lemma manualAdjustCanvas_drawn (adj : ManualAdjustments) (image : Surface) :
  exists ctx, manualAdjustCanvas adj image = bitmap ctx /\ drawn_from image ctx.
Proof.
  unfold manualAdjustCanvas. cbv zeta.
  pose proof (drawn_from_base adj image) as Hbase.
  eexists. split; [reflexivity|].
  match goal with
  | |- drawn_from _
         (if _ then fillRect _ _ _ _
                      (set_fillStyle _ (set_globalCompositeOperation _ ?T))
          else _) =>
      assert (HT : drawn_from image T)
  end.
  { destruct (PrimFloat.ltb 0 (temperature adj));
      [apply drawn_from_fill; [discriminate|exact Hbase]|].
    destruct (PrimFloat.ltb (temperature adj) 0);
      [apply drawn_from_fill; [discriminate|exact Hbase]|].
    apply drawn_from_operator, Hbase. }
  destruct (PrimFloat.ltb 0 (tint adj));
    [apply drawn_from_fill; [discriminate|exact HT]|].
  destruct (PrimFloat.ltb (tint adj) 0);
    [apply drawn_from_fill; [discriminate|exact HT]|].
  apply drawn_from_operator, HT.
Qed.

(** X19: Whatever the adjustment vector (any numbers, NaN included) and whatever
    the image, the adjusted canvas has the size of the image and holds a
    well-formed bitmap, and an opaque image stays opaque. *)
Theorem manual_adjustment_keeps_size_and_opacity (adj : ManualAdjustments)
    (image : Surface) :
  same_size (manualAdjustCanvas adj image) image
  /\ valid_surface (manualAdjustCanvas adj image)
  /\ (opaque_surface image -> opaque_surface (manualAdjustCanvas adj image)).
Proof.
  destruct (manualAdjustCanvas_drawn adj image) as (ctx & -> & Hw & Hh & Hp).
  split; [split; assumption|]. split.
  - intros x y _. destruct (proj1 (Hp x y)) as (op & src & bd & ->).
    apply composite_valid.
  - intros Ho x y Hb.
    assert (Hb' : in_bounds image x y = true).
    { rewrite <- Hb. symmetry. apply in_bounds_same_size. split; assumption. }
    apply (proj2 (Hp x y) Hb'), Ho, Hb'.
Qed.

Lemma redrawComposite_refs (rs : resampler)
    (display mask current previous : Surface) :
  exists out,
    redrawComposite rs
      (mkRefs (Some display) (Some mask) (Some current) (Some previous))
    = mkRefs (Some out) (Some mask) (Some current) (Some previous)
    /\ same_size out display.
Proof.
  unfold redrawComposite.
  cbn [displayCanvas maskCanvas image_current image_previous].
  unfold drawImage_scaled.
  destruct ((width display =? width current) && (height display =? height current));
    destruct ((width display =? width previous)
              && (height display =? height previous));
    (eexists; split; [reflexivity|split; reflexivity]).
Qed.

Lemma redrawComposite_same_on (rs : resampler)
    (display display' mask current previous out out' : Surface) :
  same_size display display' ->
  redrawComposite rs
    (mkRefs (Some display) (Some mask) (Some current) (Some previous))
  = mkRefs (Some out) (Some mask) (Some current) (Some previous) ->
  redrawComposite rs
    (mkRefs (Some display') (Some mask) (Some current) (Some previous))
  = mkRefs (Some out') (Some mask) (Some current) (Some previous) ->
  forall x y, in_bounds display x y = true -> pixel out x y = pixel out' x y.
Proof.
  intros [Hw Hh]. destruct display' as [w' h' p'].
  cbn [width height] in Hw, Hh. subst w' h'.
  unfold redrawComposite.
  cbn [displayCanvas maskCanvas image_current image_previous].
  unfold drawImage_scaled. canvas_struct.
  destruct ((width display =? width current) && (height display =? height current));
    destruct ((width display =? width previous)
              && (height display =? height previous));
    intros H1 H2 x y Hb; injection H1 as <-; injection H2 as <-;
    canvas_struct; rewrite !in_rect_canvas, Hb; reflexivity.
Qed.

(** X20: The composite does not depend on what the display canvas showed
    before: two display canvases of the same size give the same pixels, so
    recomposing twice gives what recomposing once gives. *)
Theorem recompose_ignores_display_content (rs : resampler)
    (display display' mask current previous : Surface) :
  same_size display display' ->
  exists out out' again,
    redrawComposite rs
      (mkRefs (Some display) (Some mask) (Some current) (Some previous))
    = mkRefs (Some out) (Some mask) (Some current) (Some previous)
    /\ redrawComposite rs
         (mkRefs (Some display') (Some mask) (Some current) (Some previous))
       = mkRefs (Some out') (Some mask) (Some current) (Some previous)
    /\ redrawComposite rs
         (redrawComposite rs
            (mkRefs (Some display) (Some mask) (Some current) (Some previous)))
       = mkRefs (Some again) (Some mask) (Some current) (Some previous)
    /\ same_size out display /\ same_size out' display
    /\ same_size again display
    /\ forall x y, in_bounds display x y = true ->
         pixel out x y = pixel out' x y /\ pixel again x y = pixel out x y.
Proof.
  intros S.
  destruct (redrawComposite_refs rs display mask current previous)
    as (out & Hout & So).
  destruct (redrawComposite_refs rs display' mask current previous)
    as (out' & Hout' & So').
  destruct (redrawComposite_refs rs out mask current previous)
    as (again & Hagain & Sa).
  exists out, out', again. rewrite Hout.
  split; [reflexivity|]. split; [exact Hout'|]. split; [exact Hagain|].
  split; [exact So|].
  split; [destruct S, So'; split; congruence|].
  split; [destruct So, Sa; split; congruence|].
  intros x y Hb. split.
  - exact (redrawComposite_same_on rs display display' mask current previous
             out out' S Hout Hout' x y Hb).
  - symmetry.
    apply (redrawComposite_same_on rs display out mask current previous
             out again); try assumption.
    destruct So; split; congruence.
Qed.

(** With nothing painted on the mask, the composite is the current image
    whatever the previous image is. *)
Lemma recompose_transparent_mask_any_previous (rs : resampler)
    (display mask current previous : Surface) :
  same_size current display -> same_size mask display ->
  valid_surface current -> mask_alpha_everywhere mask 0 ->
  exists out,
    displayCanvas (redrawComposite rs
      (mkRefs (Some display) (Some mask) (Some current) (Some previous)))
    = Some out
    /\ pixel_identical out current.
Proof.
  intros Sc Sm Vc Hm. unfold redrawComposite.
  cbn [displayCanvas maskCanvas image_current image_previous].
  unfold drawImage_scaled.
  assert (Ec : (width display =? width current)
               && (height display =? height current) = true).
  { destruct Sc as [-> ->]. now rewrite !Z.eqb_refl. }
  rewrite Ec.
  eexists. split; [reflexivity|].
  split; [destruct Sc; split; cbn; congruence|].
  intros x y Hb. change (in_bounds display x y = true) in Hb.
  assert (Hbc : in_bounds current x y = true)
    by now rewrite (in_bounds_same_size _ _ x y Sc).
  assert (Hbm : in_bounds mask x y = true)
    by now rewrite (in_bounds_same_size _ _ x y Sm).
  destruct ((width display =? width previous)
            && (height display =? height previous));
    canvas_simpl; rewrite !Z.sub_0_r, in_rect_canvas, Hb;
    rewrite (sample_in_bounds current x y Hbc);
    rewrite (to_color_on_transparent _ (Vc x y Hbc));
    (match goal with
     | |- context [sample (mkSurface ?w ?h ?f) x y] =>
         rewrite (sample_in_bounds (mkSurface w h f) x y Hb)
     end);
    cbn [pixel]; rewrite !Z.sub_0_r, (sample_in_bounds mask x y Hbm);
    rewrite composite_destination_in_clear
      by (cbn [to_color ca]; rewrite (Hm x y Hbm); reflexivity);
    (apply composite_transparent_source; [exact (Vc x y Hbc)|reflexivity]).
Qed.

(** X21: A restore session starts with a transparent mask and the current
    image on display, and recomposing before any stroke shows the current
    image, whatever the original image is (any size, any content). *)
Theorem restore_session_shows_current (rs : resampler)
    (current previous : Surface) :
  valid_surface current ->
  exists display mask out,
    restoreSessionStart rs current previous
    = mkRefs (Some display) (Some mask) (Some current) (Some previous)
    /\ same_size display current /\ same_size mask current
    /\ mask_alpha_everywhere mask 0
    /\ pixel_identical display current
    /\ displayCanvas (redrawComposite rs (restoreSessionStart rs current previous))
       = Some out
    /\ pixel_identical out current.
Proof.
  intros Vc.
  destruct (restoreSessionStart_refs rs current previous Vc)
    as (display & mask & Hrefs & Sc & Sm & Vm & Hm & Hd).
  destruct (recompose_transparent_mask_any_previous rs display mask current
              previous Sc Sm Vc Hm) as (out & Hout & Hid).
  exists display, mask, out. rewrite Hrefs.
  split; [reflexivity|]. split; [destruct Sc; split; congruence|].
  split; [destruct Sc, Sm; split; congruence|].
  split; [exact Hm|]. split; [exact Hd|]. split; [exact Hout|exact Hid].
Qed.

(** With no tint rectangle filled and filter amounts equal to 1 the canvas
    holds the source pixels. *)
Lemma neutral_adjustment_identical (adj : ManualAdjustments) (image : Surface)
    (fs : list filter_function) :
  PrimFloat.ltb 0 (temperature adj) = false ->
  PrimFloat.ltb (temperature adj) 0 = false ->
  PrimFloat.ltb 0 (tint adj) = false ->
  PrimFloat.ltb (tint adj) 0 = false ->
  manual_filters adj = Some fs ->
  Forall (fun f => (amount_of f == 1)%Q) fs ->
  valid_surface image ->
  pixel_identical (manualAdjustCanvas adj image) image.
Proof.
  intros H1 H2 H3 H4 Hfs Hone Hv.
  rewrite (manualAdjustCanvas_untinted adj image H1 H2 H3 H4 fs Hfs).
  split; [split; reflexivity|].
  intros x y Hb. cbn [pixel]. rewrite !Z.sub_0_r.
  change (in_bounds image x y = true) in Hb.
  rewrite sample_in_bounds by exact Hb.
  specialize (Hv x y Hb).
  destruct (apply_filters_identity fs (to_color (pixel image x y))
              (to_color (pixel image x y)) Hone (unit_color_to_color _ Hv))
    as (Er & Eg & Eb & Ea).
  { repeat split; reflexivity. }
  now apply composite_on_transparent.
Qed.

(** X22: When the panel sees no change in the vector (every slider at zero of
    either sign), Apply is disabled, and the pipeline would be the identity
    on every bitmap anyway. *)
Theorem apply_disabled_without_changes_is_harmless
    (adjustments : ManualAdjustments) (image : Surface) (loading : bool) :
  hasChanges adjustments = false -> valid_surface image ->
  apply_disabled loading adjustments = true
  /\ pixel_identical (manualAdjustCanvas adjustments image) image.
Proof.
  intros Hc Hv. split.
  { unfold apply_disabled. rewrite Hc. apply orb_true_r. }
  pose proof (hasChanges_false_zero adjustments Hc) as Hz.
  pose proof (Hz key_temperature) as Zte. pose proof (Hz key_tint) as Zti.
  pose proof (Hz key_exposure) as Zex. pose proof (Hz key_contrast) as Zco.
  pose proof (Hz key_saturation) as Zsa. clear Hz Hc.
  destruct adjustments as [te ti ex co hi sh wh bl cl vi sa].
  cbn [adjustment_get temperature tint exposure contrast saturation] in *.
  destruct Zte as [-> | ->], Zti as [-> | ->], Zex as [-> | ->],
           Zco as [-> | ->], Zsa as [-> | ->];
    (eapply neutral_adjustment_identical;
     [reflexivity|reflexivity|reflexivity|reflexivity
     |vm_compute; reflexivity|repeat constructor|exact Hv]).
Qed.

(** Recomposing on a blank and on a painted 2x2 display canvas. *)
Lemma recompose_on_blank_and_painted_display :
  let mask := flat 2 2 (mkRGBA 255 255 255 64) in
  let current := flat 2 2 (mkRGBA 0 0 200 255) in
  let previous := flat 2 2 (mkRGBA 200 0 0 255) in
  same_size (createCanvas 2 2) (flat 2 2 (mkRGBA 9 9 9 255))
  /\ exists out out',
       displayCanvas (redrawComposite nearest_neighbour
         (mkRefs (Some (createCanvas 2 2)) (Some mask) (Some current)
                 (Some previous))) = Some out
       /\ displayCanvas (redrawComposite nearest_neighbour
            (mkRefs (Some (flat 2 2 (mkRGBA 9 9 9 255))) (Some mask)
                    (Some current) (Some previous))) = Some out'
       /\ pixel out 1 1 = pixel out' 1 1.
Proof.
  cbv zeta.
  assert (S : same_size (createCanvas 2 2) (flat 2 2 (mkRGBA 9 9 9 255)))
    by (split; reflexivity).
  split; [exact S|].
  destruct (recompose_ignores_display_content nearest_neighbour
              (createCanvas 2 2) (flat 2 2 (mkRGBA 9 9 9 255))
              (flat 2 2 (mkRGBA 255 255 255 64))
              (flat 2 2 (mkRGBA 0 0 200 255)) (flat 2 2 (mkRGBA 200 0 0 255)) S)
    as (out & out' & again & H1 & H2 & _ & _ & _ & _ & Hpix).
  exists out, out'. rewrite H1, H2.
  split; [reflexivity|]. split; [reflexivity|].
  exact (proj1 (Hpix 1 1 eq_refl)).
Defined.

(** Entering restore mode on 2x2 flat snapshots. *)
Lemma restore_session_on_flat_snapshots :
  let current := flat 2 2 (mkRGBA 0 0 200 255) in
  let previous := flat 2 2 (mkRGBA 200 0 0 255) in
  valid_surface current
  /\ exists out,
       displayCanvas (redrawComposite nearest_neighbour
                        (restoreSessionStart nearest_neighbour current previous))
       = Some out
       /\ pixel_identical out current.
Proof.
  cbv zeta.
  assert (Hv : valid_surface (flat 2 2 (mkRGBA 0 0 200 255))).
  { intros x y _. cbn. unfold valid_pixel. cbn. lia. }
  split; [exact Hv|].
  destruct (restore_session_shows_current nearest_neighbour
              (flat 2 2 (mkRGBA 0 0 200 255)) (flat 2 2 (mkRGBA 200 0 0 255)) Hv)
    as (display & mask & out & _ & _ & _ & _ & _ & Hout & Hid).
  exists out. split; [exact Hout|exact Hid].
Defined.

(** A vector whose exposure is minus zero: the panel sees no change and the
    pipeline changes no pixel. *)
Lemma minus_zero_exposure_is_no_change :
  let adjustments := mkAdjustments 0 0 (-0) 0 0 0 0 0 0 0 0 in
  let image := flat 2 2 (mkRGBA 10 20 30 255) in
  hasChanges adjustments = false
  /\ valid_surface image
  /\ apply_disabled false adjustments = true
  /\ pixel_identical (manualAdjustCanvas adjustments image) image.
Proof.
  cbv zeta.
  assert (Hv : valid_surface (flat 2 2 (mkRGBA 10 20 30 255))).
  { intros x y _. cbn. unfold valid_pixel. cbn. lia. }
  split; [vm_compute; reflexivity|]. split; [exact Hv|].
  refine (apply_disabled_without_changes_is_harmless
            (mkAdjustments 0 0 (-0) 0 0 0 0 0 0 0 0)
            (flat 2 2 (mkRGBA 10 20 30 255)) false _ Hv).
  vm_compute. reflexivity.
Defined.

(** A warm, desaturated adjustment of an opaque 2x2 image. *)
Lemma warm_gray_adjustment_stays_opaque :
  let image := flat 2 2 (mkRGBA 128 128 128 255) in
  let warm_gray := mkAdjustments 100 0 0 0 0 0 0 0 0 0 (-100) in
  opaque_surface image /\ opaque_surface (manualAdjustCanvas warm_gray image).
Proof.
  cbv zeta.
  assert (H : opaque_surface (flat 2 2 (mkRGBA 128 128 128 255)))
    by (intros x y _; reflexivity).
  split; [exact H|].
  exact (proj2 (proj2 (manual_adjustment_keeps_size_and_opacity
                         (mkAdjustments 100 0 0 0 0 0 0 0 0 0 (-100))
                         (flat 2 2 (mkRGBA 128 128 128 255)))) H).
Defined.

End CanvasLaws.

(* ===================================================================== *)
(** ** Concrete instances of the further properties *)

(** Two snapshots with the cursor on the second: undo, then redo. *)
Lemma undo_then_redo_on_two_snapshots :
  let A := mkFile [1] "a.png" "image/png" in
  let B := mkFile [2] "b.png" "image/png" in
  let s := setHistoryIndex 1 (setHistory [A; B] initialState) in
  history_wf s /\ handleRedo (handleUndo s) = s.
Proof.
  cbv zeta.
  match goal with
  | |- history_wf ?s /\ _ =>
      assert (W : history_wf s) by (right; cbn; lia);
      split; [exact W|exact (proj1 (undo_redo_inverse s W) eq_refl)]
  end.
Defined.

(** Undo on two snapshots keeps both. *)
Lemma undo_keeps_two_snapshots :
  let A := mkFile [1] "a.png" "image/png" in
  let B := mkFile [2] "b.png" "image/png" in
  let s := setHistoryIndex 1 (setHistory [A; B] initialState) in
  history_wf s /\ history (handleUndo s) = [A; B].
Proof.
  cbv zeta.
  match goal with
  | |- history_wf ?s /\ _ =>
      assert (W : history_wf s) by (right; cbn; lia);
      split;
      [exact W
      |exact (proj1 (proj1 (navigation_keeps_snapshots s W) handleUndo
                       (or_introl eq_refl)))]
  end.
Defined.

(** The state after the first upload. *)
Lemma cursor_invariant_after_first_upload :
  let A := mkFile [1] "a.png" "image/png" in
  reachable (handleFileSelect [A] initialState)
  /\ history_wf (handleFileSelect [A] initialState).
Proof.
  cbv zeta.
  match goal with
  | |- reachable ?s /\ _ =>
      assert (R : reachable s) by (apply reach_fileSelect, reach_init);
      split; [exact R|exact (proj1 (reachable_cursor_invariant s R))]
  end.
Defined.


(** Reset on two snapshots shows the first. *)
Lemma reset_on_two_snapshots :
  let A := mkFile [1] "a.png" "image/png" in
  let B := mkFile [2] "b.png" "image/png" in
  let s := setHistoryIndex 1 (setHistory [A; B] initialState) in
  history_wf s /\ currentImage (handleReset s) = Some A.
Proof.
  cbv zeta.
  match goal with
  | |- history_wf ?s /\ _ =>
      assert (W : history_wf s) by (right; cbn; lia);
      split; [exact W|exact (proj1 (proj2 (reset_returns_to_original s W)))]
  end.
Defined.

(** A rejected filter request on a freshly loaded image, then the dismissal
    of the error. *)
Lemma rejected_filter_then_dismiss :
  let A := mkFile [1] "a.png" "image/png" in
  let s := handleFileSelect [A] initialState in
  isLoading s = false /\ error s = None
  /\ dismissError (handleApplyFilter (Rejected (JS.ErrorObj "quota")) 0 s) = s.
Proof.
  cbv zeta. split; [reflexivity|]. split; [reflexivity|].
  exact (proj1 (proj2 (failed_request_then_dismiss_restores_state
                         (handleFileSelect [mkFile [1] "a.png" "image/png"]
                            initialState)
                         (JS.ErrorObj "quota") 0 eq_refl eq_refl))).
Defined.

(** A URL without a comma given to the restore handler. *)
Lemma restore_with_url_without_comma :
  dataURLtoFile "nocomma" "restored-0.png" = inl (JS.ErrorObj "Invalid data URL")
  /\ handleApplyRestore (Some "nocomma"%string) 0 initialState = initialState.
Proof.
  split; [reflexivity|].
  exact (proj2 (proj2 (proj2 (malformed_data_url_is_a_failure initialState
                                initialState "nocomma" "restored-0.png"
                                (JS.ErrorObj "Invalid data URL") 0 eq_refl)))).
Defined.

(** The state after a click on the image. *)
Lemma hotspots_after_a_click :
  let s := handleImageClick (Some (0%float, 0%float))
             (mkImg 1000 500 400 400 400 400 0 0) (mkMouse 200 100)
             initialState in
  reachable s /\ hotspots_paired s.
Proof.
  cbv zeta.
  match goal with
  | |- reachable ?s /\ _ =>
      assert (R : reachable s) by (apply reach_click, reach_init);
      split; [exact R|exact (hotspots_set_and_cleared_together s R)]
  end.
Defined.

(** Removing the first of two prop images. *)
Lemma remove_first_of_two_props :
  let A := mkFile [1] "a.png" "image/png" in
  let B := mkFile [2] "b.png" "image/png" in
  let s := handlePropImageSelect [A; B] ["blob:a"; "blob:b"]%string initialState in
  props_aligned s
  /\ propImages (handleRemovePropImage s 0 s) = [B]
  /\ propImageUrls (handleRemovePropImage s 0 s) = ["blob:b"%string].
Proof.
  cbv zeta.
  match goal with
  | |- props_aligned ?s /\ _ =>
      assert (P : props_aligned s) by reflexivity;
      split; [exact P|];
      destruct (remove_prop_image s 0 P) as (_ & H & _)
  end.
  destruct H as (H1 & H2 & _); [cbn; lia|].
  split; [exact H1|exact H2].
Defined.

(** Dropping one prop image on the first render. *)
Lemma drop_one_prop_image :
  let A := mkFile [1] "a.png" "image/png" in
  props_aligned initialState
  /\ length [A] = length ["blob:a"%string]
  /\ props_aligned (handlePropDrop [A] ["blob:a"%string] initialState).
Proof.
  cbv zeta. split; [reflexivity|]. split; [reflexivity|].
  exact (proj1 (prop_lists_stay_aligned initialState
                  [mkFile [1] "a.png" "image/png"] ["blob:a"%string]
                  eq_refl eq_refl)
           _ (or_intror (or_introl eq_refl))).
Defined.

(** Moving over the canvas without pressing. *)
Lemma hovering_paints_nothing :
  let evs := [MouseEnter; MouseMove (0%float, 0%float) (mkMouse 10 10);
              MouseMove (0%float, 0%float) (mkMouse 20 15); MouseLeave] in
  forallb is_hover evs = true
  /\ strokes (pointer_run None evs (mkBrush initialState None [])) = [].
Proof.
  cbv zeta. split; [reflexivity|].
  exact (proj1 (brush_paints_only_while_pressed None
                  [MouseEnter; MouseMove (0%float, 0%float) (mkMouse 10 10);
                   MouseMove (0%float, 0%float) (mkMouse 20 15); MouseLeave]
                  (mkBrush initialState None []) eq_refl) eq_refl).
Defined.


(** An answer that arrives on the first render, where no image is loaded. *)
Lemma answer_without_image_is_dropped :
  currentImage initialState = None
  /\ handleGenerate (Resolved "data:image/png;base64,iVBORw==") 0 initialState
     = initialState.
Proof.
  split; [reflexivity|].
  exact (proj1 (proj1 (handlers_decline_without_preconditions initialState
                         (Resolved "data:image/png;base64,iVBORw==") 0)
                  eq_refl)).
Defined.

